(** * Hong Kong Monthly Temperature Matrix: a shallow embedding of [main.js]

    The development follows the data flow of the program: rows are parsed
    ([parseRow]), restricted to the most recent calendar years
    ([filterLastYears]), grouped into one cell per (year, month)
    ([aggregateByYearMonth]), coloured ([buildColorScale]) and drawn
    ([drawSparklines], [drawMatrix] and its handlers).

    Part I is the embedding of the program and of the d3 functions it
    calls; Part II names the notions the statements speak of; Part III
    holds the proofs.

    Conventions of the embedding.
    - A JavaScript number is an exact rational or [NaN].  Binary64 rounding,
      signed zeros and the infinities are outside the model; every division
      of the program is guarded against a zero divisor (see [JS.div]).
      Statements are chosen to hold of the program in binary64 as well;
      where rounding decides a claim, the expressions of the program are
      evaluated in binary64 itself (see [Binary64]).
    - [undefined] is [None] in an [option].
    - The d3 functions used by [main.js] ([d3.max], [d3.min], [d3.mean],
      [d3.group], [d3.scaleLinear], [d3.scaleBand],
      [d3.scaleSequential], [d3.interpolateRdYlBu]) are transcribed from the
      d3 sources (d3-array, d3-scale, d3-interpolate, d3-color,
      d3-scale-chromatic).
    - An animated transition is taken at its end state. *)

From Stdlib Require Import ZArith QArith Qcanon Qround Lia Lqa String Ascii List SpecFloat.
From stdpp Require Import base numbers list strings gmap sorting pretty.

Local Open Scope Z_scope.

(** * Part I: the program *)

(** ** JavaScript numbers *)

Module JS.

Inductive number : Type :=
| NaN
| Num (q : Qc).

#[global] Instance number_eq_dec : EqDecision number.
Proof. solve_decision. Defined.

Definition ofZ (z : Z) : number := Num (Qc_of_Z z).

Definition isNaN (x : number) : bool :=
  match x with NaN => true | Num _ => false end.

Definition lift2 (f : Qc → Qc → Qc) (a b : number) : number :=
  match a, b with
  | Num x, Num y => Num (f x y)
  | _, _ => NaN
  end.

Definition add : number → number → number := lift2 Qcplus.
Definition sub : number → number → number := lift2 Qcminus.
Definition mul : number → number → number := lift2 Qcmult.

(** [a / b].  A zero divisor would give an infinity (or [NaN] for 0/0);
    the program never divides by zero: [d3.mean] tests [count], the
    linear scale tests [b -= a], the sequential scale tests [t0 === t1],
    and the other divisors are the constants 6, 10 and
    [Math.max(1, ...)]. *)
Definition div (a b : number) : number :=
  match a, b with
  | Num x, Num y => if decide (y = 0%Qc) then NaN else Num (x / y)%Qc
  | _, _ => NaN
  end.

(** Relational operators: a comparison with [NaN] is [false]. *)
Definition lt (a b : number) : bool :=
  match a, b with
  | Num x, Num y => bool_decide (x < y)%Qc
  | _, _ => false
  end.
Definition le (a b : number) : bool :=
  match a, b with
  | Num x, Num y => bool_decide (x ≤ y)%Qc
  | _, _ => false
  end.
Definition gt (a b : number) : bool := lt b a.
Definition ge (a b : number) : bool := le b a.

(** [+v] for a value that is a number or [undefined]. *)
Definition ToNumber (v : option number) : number :=
  match v with
  | Some x => x
  | None => NaN
  end.

(** Truthiness of a number: [0] and [NaN] are falsy. *)
Definition truthy (x : number) : bool :=
  match x with
  | NaN => false
  | Num q => bool_decide (q ≠ 0%Qc)
  end.

End JS.

Import JS.

Definition ofQ (q : Q) : number := Num (Q2Qc q).

(** [a === b] on numbers: [NaN] is not equal to itself. *)
Definition strict_eq (a b : number) : bool :=
  match a, b with
  | Num x, Num y => bool_decide (x = y)
  | _, _ => false
  end.

(** [Math.floor], [Math.round] (ties go up), [Math.max], [Math.min]. *)
Definition Math_floor (x : number) : number :=
  match x with
  | NaN => NaN
  | Num q => ofZ (Qfloor q)
  end.

Definition Math_round (x : number) : number :=
  match x with
  | NaN => NaN
  | Num q => ofZ (Qfloor (q + Q2Qc (1 # 2))%Qc)
  end.

Definition Math_max (a b : number) : number :=
  match a, b with
  | Num x, Num y => if bool_decide (x < y)%Qc then b else a
  | _, _ => NaN
  end.

Definition Math_min (a b : number) : number :=
  match a, b with
  | Num x, Num y => if bool_decide (y < x)%Qc then b else a
  | _, _ => NaN
  end.

(** [values[i]]: [undefined] unless [i] is an index of the array. *)
Definition index {A : Type} (values : list A) (i : number) : option A :=
  match i with
  | NaN => None
  | Num q =>
      if bool_decide (q = Qc_of_Z (Qfloor q) ∧ 0 ≤ Qfloor q)
      then values !! Z.to_nat (Qfloor q)
      else None
  end.

(** The decimal text of a number that is an integer. *)
Definition int_toString (x : number) : string :=
  match x with
  | NaN => "NaN"
  | Num q => pretty (Qfloor q)
  end.

(** [x.toFixed(1)] for a magnitude below 1e21: the sign, then the integer
    [n] nearest to [|x| * 10] (the larger one on a tie) printed with one
    decimal. *)
Definition toFixed1 (x : number) : string :=
  match x with
  | NaN => "NaN"
  | Num q =>
      let negative := bool_decide (q < 0)%Qc in
      let n := Qfloor ((if negative then - q else q) * Qc_of_Z 10
                       + Q2Qc (1 # 2))%Qc in
      (if negative then "-" else "")
        +:+ pretty (n `div` 10) +:+ "." +:+ pretty (n `mod` 10)
  end.

(** The values of a [Set], or the keys of a [Map], filled from a sequence:
    the distinct entries in insertion order, each where it first occurs. *)
Fixpoint distinct_from {A : Type} `{EqDecision A} (seen l : list A) : list A :=
  match l with
  | [] => []
  | x :: l' =>
      if decide (x ∈ seen) then distinct_from seen l'
      else x :: distinct_from (x :: seen) l'
  end.

Definition distinct {A : Type} `{EqDecision A} (l : list A) : list A :=
  distinct_from [] l.

(** ** Dates and daily records *)

Inductive Month : Type :=
| Jan | Feb | Mar | Apr | May | Jun | Jul | Aug | Sep | Oct | Nov | Dec.

#[global] Instance Month_eq_dec : EqDecision Month.
Proof. solve_decision. Defined.

(** The value of [getMonth()]: 0 = January ... 11 = December. *)
Definition month_index (m : Month) : Z :=
  match m with
  | Jan => 0 | Feb => 1 | Mar => 2 | Apr => 3 | May => 4 | Jun => 5
  | Jul => 6 | Aug => 7 | Sep => 8 | Oct => 9 | Nov => 10 | Dec => 11
  end.

(** A [Date] object, seen through the local calendar fields the program
    reads.  [new Date(s)] on an unparseable string is the Invalid Date,
    whose getters all return [NaN]. *)
Inductive Date : Type :=
| InvalidDate
| LocalDate (year : Z) (month : Month) (day : Z).

#[global] Instance Date_eq_dec : EqDecision Date.
Proof. solve_decision. Defined.

Definition getFullYear (d : Date) : number :=
  match d with
  | InvalidDate => NaN
  | LocalDate y _ _ => ofZ y
  end.

Definition getMonth (d : Date) : number :=
  match d with
  | InvalidDate => NaN
  | LocalDate _ m _ => ofZ (month_index m)
  end.

(** The object returned by [parseRow]. *)
Record DailyRecord : Type := mkDaily {
  date : Date;
  max : number;
  min : number;
}.

#[global] Instance DailyRecord_eq_dec : EqDecision DailyRecord.
Proof. solve_decision. Defined.

(** ** Row parser *)

(** A row as [d3.csv] hands it to [parseRow]: every field is text. *)
Module Raw.
Record Row : Type := mkRow {
  date : string;
  max_temperature : string;
  min_temperature : string;
}.
End Raw.

(** [new Date(text)] and the unary [+] on text belong to the host; the
    parser is embedded over both.  What the language defines for the
    unary [+] is [StringToNumber] below.
    [[
    function parseRow(d) {
      return {
        date: new Date(d.date),
        max:  +d.max_temperature,
        min:  +d.min_temperature,
      };
    }
    ]] *)
Definition parseRow (newDate : string → Date) (plus : string → number)
    (d : Raw.Row) : DailyRecord :=
  {| date := newDate (Raw.date d);
     max := plus (Raw.max_temperature d);
     min := plus (Raw.min_temperature d) |}.

(** ** The unary [+] on text *)

(** [+text] is StringToNumber of the language: the text is read as a
    StringNumericLiteral (white space is trimmed, the empty text is 0,
    then a signed decimal literal, which may be [Infinity], or an
    unsigned binary, octal or hexadecimal integer); a text that is not
    one gives [NaN].  A text is the sequence of its UTF-8 bytes.  The
    value of a literal is kept exact; a literal whose value is an
    infinity, or rounds to one, has no value in [number], and
    [StringToNumber] is [None] there. *)
Definition digit_value (c : ascii) : option Z :=
  let n := Z.of_nat (nat_of_ascii c) in
  if (48 <=? n) && (n <=? 57) then Some (n - 48) else None.

(** Reads the longest run of digits, continuing the number [acc]; returns
    the number, how many digits were read, and the rest. *)
Fixpoint take_digits (s : list ascii) (acc : Z) (count : nat)
  : Z * nat * list ascii :=
  match s with
  | [] => (acc, count, [])
  | c :: s' =>
      match digit_value c with
      | Some v => take_digits s' (acc * 10 + v) (S count)
      | None => (acc, count, s)
      end
  end.

(** The exponent part, if any, up to the end of the text. *)
Definition read_exponent (s : list ascii) : option Z :=
  match s with
  | [] => Some 0
  | c :: s' =>
      if bool_decide (c = "e"%char ∨ c = "E"%char) then
        let '(negative, s'') :=
          match s' with
          | "-"%char :: t => (true, t)
          | "+"%char :: t => (false, t)
          | _ => (false, s')
          end in
        match take_digits s'' 0 0 with
        | (e, S _, []) => Some (if negative : bool then - e else e)
        | _ => None
        end
      else None
  end.

(** [mantissa * 10 ^ exponent] *)
Definition scale10 (mantissa exponent : Z) : Qc :=
  if 0 <=? exponent then Qc_of_Z (mantissa * 10 ^ exponent)
  else (Qc_of_Z mantissa / Qc_of_Z (10 ^ (- exponent)))%Qc.

Definition read_unsigned (s : list ascii) : option Qc :=
  let '(int_part, int_digits, rest) := take_digits s 0 0 in
  match rest with
  | "."%char :: rest' =>
      let '(mantissa, frac_digits, rest'') := take_digits rest' int_part 0 in
      if bool_decide (int_digits = 0%nat ∧ frac_digits = 0%nat) then None
      else e ← read_exponent rest'';
           Some (scale10 mantissa (e - Z.of_nat frac_digits))
  | _ =>
      if bool_decide (int_digits = 0%nat) then None
      else e ← read_exponent rest; Some (scale10 int_part e)
  end.

(** What a text denotes under the StringNumericLiteral grammar. *)
Inductive StringNumericValue : Type :=
| NotNumeric
| Finite (q : Qc)
| Infinite (negative : bool).

Definition utf8 (bytes : list nat) : list ascii := ascii_of_nat <$> bytes.

Definition StrWhiteSpaceChar : list (list ascii) :=
  utf8 <$> [ [9]; [10]; [11]; [12]; [13]; [32]; [194; 160]; [225; 154; 128];
             [226; 128; 128]; [226; 128; 129]; [226; 128; 130]; [226; 128; 131];
             [226; 128; 132]; [226; 128; 133]; [226; 128; 134]; [226; 128; 135];
             [226; 128; 136]; [226; 128; 137]; [226; 128; 138];
             [226; 128; 168]; [226; 128; 169]; [226; 128; 175];
             [226; 129; 159]; [227; 128; 128]; [239; 187; 191] ]%nat.

Fixpoint strip_prefix (prefix s : list ascii) : option (list ascii) :=
  match prefix, s with
  | [], _ => Some s
  | c :: prefix', c' :: s' =>
      if decide (c = c') then strip_prefix prefix' s' else None
  | _ :: _, [] => None
  end.

Fixpoint strip_any (prefixes : list (list ascii)) (s : list ascii)
  : option (list ascii) :=
  match prefixes with
  | [] => None
  | prefix :: rest =>
      match strip_prefix prefix s with
      | Some s' => Some s'
      | None => strip_any rest s
      end
  end.

Fixpoint strip_all (prefixes : list (list ascii)) (fuel : nat) (s : list ascii)
  : list ascii :=
  match fuel with
  | O => s
  | S fuel' =>
      match strip_any prefixes s with
      | Some s' => strip_all prefixes fuel' s'
      | None => s
      end
  end.

Definition trimString (s : list ascii) : list ascii :=
  let s := strip_all StrWhiteSpaceChar (length s) s in
  reverse (strip_all (reverse <$> StrWhiteSpaceChar) (length s) (reverse s)).

Definition radix_digit (radix : Z) (c : ascii) : option Z :=
  let n := Z.of_nat (nat_of_ascii c) in
  let v := if (48 <=? n) && (n <=? 57) then n - 48
           else if (97 <=? n) && (n <=? 102) then n - 87
           else if (65 <=? n) && (n <=? 70) then n - 55
           else radix in
  if v <? radix then Some v else None.

Fixpoint radix_digits (radix : Z) (s : list ascii) (acc : Z) : option Z :=
  match s with
  | [] => Some acc
  | c :: s' => v ← radix_digit radix c; radix_digits radix s' (acc * radix + v)
  end.

Definition NonDecimalIntegerLiteral (s : list ascii) : option Z :=
  match s with
  | "0"%char :: p :: d :: ds =>
      let radix :=
        if bool_decide (p = "x"%char ∨ p = "X"%char) then Some 16
        else if bool_decide (p = "o"%char ∨ p = "O"%char) then Some 8
        else if bool_decide (p = "b"%char ∨ p = "B"%char) then Some 2
        else None in
      r ← radix; radix_digits r (d :: ds) 0
  | _ => None
  end.

Definition StrUnsignedDecimalLiteral (s : list ascii) : StringNumericValue :=
  if decide (s = list_ascii_of_string "Infinity") then Infinite false
  else from_option Finite NotNumeric (read_unsigned s).

Definition negate (v : StringNumericValue) : StringNumericValue :=
  match v with
  | NotNumeric => NotNumeric
  | Finite q => Finite (- q)%Qc
  | Infinite negative => Infinite (negb negative)
  end.

Definition StringNumericLiteral (text : string) : StringNumericValue :=
  match trimString (list_ascii_of_string text) with
  | [] => Finite 0%Qc
  | "-"%char :: s => negate (StrUnsignedDecimalLiteral s)
  | "+"%char :: s => StrUnsignedDecimalLiteral s
  | s =>
      match NonDecimalIntegerLiteral s with
      | Some z => Finite (Qc_of_Z z)
      | None => StrUnsignedDecimalLiteral s
      end
  end.

(** The least magnitude that rounds to an infinity: 2^1024 - 2^970. *)
Definition overflow_threshold : Qc := Qc_of_Z (2 ^ 1024 - 2 ^ 970).

Definition StringToNumber (text : string) : option number :=
  match StringNumericLiteral text with
  | NotNumeric => Some NaN
  | Finite q =>
      if bool_decide (- overflow_threshold < q ∧ q < overflow_threshold)%Qc
      then Some (Num q) else None
  | Infinite _ => None
  end.


(** ** Dates of the examples *)

(** [isoDate] is [new Date] on the date-only form [YYYY-MM-DD] of a valid
    calendar day, read in a host whose local time zone is UTC.  Texts of
    any other form, which hosts read each in their own way, are given the
    Invalid Date here. *)
Definition month_of_number (m : Z) : option Month :=
  [Jan; Feb; Mar; Apr; May; Jun; Jul; Aug; Sep; Oct; Nov; Dec] !! Z.to_nat (m - 1).

Definition days_in_month (y : Z) (m : Month) : Z :=
  match m with
  | Feb => if ((y mod 4 =? 0) && negb (y mod 100 =? 0)) || (y mod 400 =? 0)
           then 29 else 28
  | Apr | Jun | Sep | Nov => 30
  | _ => 31
  end.

Definition isoDate (text : string) : Date :=
  match list_ascii_of_string text with
  | [y1; y2; y3; y4; "-"%char; m1; m2; "-"%char; d1; d2] =>
      match take_digits [y1; y2; y3; y4] 0 0,
            take_digits [m1; m2] 0 0,
            take_digits [d1; d2] 0 0 with
      | (y, 4%nat, []), (m, 2%nat, []), (d, 2%nat, []) =>
          match (if 1 <=? m then month_of_number m else None) with
          | Some mo =>
              if (1 <=? d) && (d <=? days_in_month y mo)
              then LocalDate y mo d else InvalidDate
          | None => InvalidDate
          end
      | _, _, _ => InvalidDate
      end
  | _ => InvalidDate
  end.

(** ** d3-array *)

(** d3-array: [d3.max] and [d3.min]

    [[
    for (let value of values)
      if ((value = valueof(value, ++index, values)) != null
          && (max < value || (max === undefined && value >= value)))
        max = value;
    return max;
    ]] *)
Definition d3_max_step (acc : option number) (v : option number) : option number :=
  match v with
  | None => acc
  | Some x =>
      if lt (ToNumber acc) x || (bool_decide (acc = None) && ge x x)
      then Some x else acc
  end.

Definition d3_max {A : Type} (values : list A) (valueof : A → option number)
  : option number :=
  fold_left (λ acc a, d3_max_step acc (valueof a)) values None.

Definition d3_min_step (acc : option number) (v : option number) : option number :=
  match v with
  | None => acc
  | Some x =>
      if gt (ToNumber acc) x || (bool_decide (acc = None) && ge x x)
      then Some x else acc
  end.

Definition d3_min {A : Type} (values : list A) (valueof : A → option number)
  : option number :=
  fold_left (λ acc a, d3_min_step acc (valueof a)) values None.

(** d3-array: [d3.mean]

    [[
    let count = 0; let sum = 0;
    for (let value of values)
      if ((value = valueof(value, ++index, values)) != null
          && (value = +value) >= value)
        ++count, sum += value;
    if (count) return sum / count;
    ]] *)
Definition d3_mean_step (acc : number * number) (value : number)
  : number * number :=
  let '(count, sum) := acc in
  if ge value value then (add count (ofZ 1), add sum value) else (count, sum).

Definition d3_mean {A : Type} (values : list A) (valueof : A → number)
  : option number :=
  let '(count, sum) :=
    fold_left (λ acc a, d3_mean_step acc (valueof a)) values (ofZ 0, ofZ 0) in
  if truthy count then Some (div sum count) else None.

(** d3-array: [d3.group]

    The groups are kept in a [Map], which iterates in insertion order;
    numeric keys are compared by SameValueZero, under which [NaN] equals
    itself: this is the equality of [number].

    [[
    const groups = new InternMap();
    for (const value of values) {
      const key = keyof(value, ++index, values);
      const group = groups.get(key);
      if (group) group.push(value);
      else groups.set(key, [value]);
    }
    for (const [key, values] of groups) groups.set(key, regroup(values, i));
    ]] *)
Fixpoint group_push {A : Type} (key : number) (value : A)
    (groups : list (number * list A)) : list (number * list A) :=
  match groups with
  | [] => [(key, [value])]
  | (k, group) :: rest =>
      if decide (k = key) then (k, group ++ [value]) :: rest
      else (k, group) :: group_push key value rest
  end.

(** [groups.get(key)] *)
Fixpoint group_get {A : Type} (key : number) (groups : list (number * list A))
  : option (list A) :=
  match groups with
  | [] => None
  | (k, group) :: rest =>
      if decide (k = key) then Some group else group_get key rest
  end.

Definition group_by {A : Type} (keyof : A → number) (values : list A)
  : list (number * list A) :=
  fold_left (λ groups value, group_push (keyof value) value groups) values [].

(** [d3.group(values, key1, key2)]: a map of maps. *)
Definition d3_group {A : Type} (values : list A) (key1 key2 : A → number)
  : list (number * list (number * list A)) :=
  (λ g, (g.1, group_by key2 g.2)) <$> group_by key1 values.

(** ** Constants of [main.js] *)

Definition YEAR_COUNT : Z := 10.
Definition MONTH_NAMES : list string :=
  ["Jan"; "Feb"; "Mar"; "Apr"; "May"; "Jun";
   "Jul"; "Aug"; "Sep"; "Oct"; "Nov"; "Dec"].
Definition TEMP_MIN : Z := 0.
Definition TEMP_MAX : Z := 40.
Definition cellWidth : Z := 80.
Definition cellHeight : Z := 50.

(** ** Year filter *)

Definition year_of (d : DailyRecord) : number := getFullYear (date d).

(** [[
    function filterLastYears(data, n) {
      const maxYear = d3.max(data, d => d.date.getFullYear());
      return data.filter(d => d.date.getFullYear() > maxYear - n);
    }
    ]] *)
Definition filterLastYears (data : list DailyRecord) (n : number)
  : list DailyRecord :=
  let maxYear := d3_max data (λ d, Some (year_of d)) in
  filter (λ d, gt (year_of d) (sub (ToNumber maxYear) n)) data.

(** Arrays in a store

    [Array.prototype.filter] reads its receiver and allocates the array it
    returns; the store makes that explicit. *)
Abbreviation store := (gmap nat (list DailyRecord)).

Definition Array_filter (p : DailyRecord → bool) (a : nat) (σ : store)
  : option (nat * store) :=
  arr ← σ !! a;
  let r := fresh (dom σ) in
  Some (r, <[r := filter (λ d, p d) arr]> σ).

(** [filterLastYears] as a call on the array stored at [data]. *)
Definition filterLastYears_call (data : nat) (n : number) (σ : store)
  : option (nat * store) :=
  arr ← σ !! data;
  let maxYear := d3_max arr (λ d, Some (year_of d)) in
  Array_filter (λ d, gt (year_of d) (sub (ToNumber maxYear) n)) data σ.

(** ** Aggregator *)

Record Cell : Type := mkCell {
  year : number;
  month : number;
  avgMax : option number;
  avgMin : option number;
  days : list DailyRecord;
}.

#[global] Instance Cell_eq_dec : EqDecision Cell.
Proof. solve_decision. Defined.

(** [[
    function aggregateByYearMonth(data) {
      const grouped = d3.group(data,
        d => d.date.getFullYear(), d => d.date.getMonth());
      const cells = [];
      for (const [year, monthMap] of grouped)
        for (const [month, days] of monthMap)
          cells.push({ year, month,
            avgMax: d3.mean(days, d => d.max),
            avgMin: d3.mean(days, d => d.min),
            days });
      return cells;
    }
    ]] *)
Definition aggregateByYearMonth (data : list DailyRecord) : list Cell :=
  let grouped :=
    d3_group data (λ d, getFullYear (date d)) (λ d, getMonth (date d)) in
  yearEntry ← grouped;
  monthEntry ← yearEntry.2;
  [ {| year := yearEntry.1;
       month := monthEntry.1;
       avgMax := d3_mean monthEntry.2 max;
       avgMin := d3_mean monthEntry.2 min;
       days := monthEntry.2 |} ].

(** ** d3-color, d3-interpolate, d3-scale-chromatic *)

Record rgb : Type := mkRgb { r : number; g : number; b : number }.

(** [clampi(value) = Math.max(0, Math.min(255, Math.round(value) || 0))] *)
Definition clampi (value : number) : number :=
  let rounded := Math_round value in
  Math_max (ofZ 0) (Math_min (ofZ 255) (if truthy rounded then rounded else ofZ 0)).

(** [color + ""] for an opaque colour: ["rgb(r, g, b)"] with the channels
    rounded and clamped to 0..255. *)
Definition rgb_formatRgb (c : rgb) : string :=
  "rgb(" +:+ int_toString (clampi (r c)) +:+ ", "
         +:+ int_toString (clampi (g c)) +:+ ", "
         +:+ int_toString (clampi (b c)) +:+ ")".

(** d3-interpolate [basis]:
    [[
    var t2 = t1 * t1, t3 = t2 * t1;
    return ((1 - 3 * t1 + 3 * t2 - t3) * v0
        + (4 - 6 * t2 + 3 * t3) * v1
        + (1 + 3 * t1 + 3 * t2 - 3 * t3) * v2
        + t3 * v3) / 6;
    ]] *)
Definition basis (t1 v0 v1 v2 v3 : number) : number :=
  let t2 := mul t1 t1 in
  let t3 := mul t2 t1 in
  div (add (add (add
        (mul (sub (add (sub (ofZ 1) (mul (ofZ 3) t1)) (mul (ofZ 3) t2)) t3) v0)
        (mul (add (sub (ofZ 4) (mul (ofZ 6) t2)) (mul (ofZ 3) t3)) v1))
        (mul (sub (add (add (ofZ 1) (mul (ofZ 3) t1)) (mul (ofZ 3) t2)) (mul (ofZ 3) t3)) v2))
        (mul t3 v3))
      (ofZ 6).

(** d3-interpolate [interpolateBasis]:
    [[
    var n = values.length - 1;
    return function(t) {
      var i = t <= 0 ? (t = 0) : t >= 1 ? (t = 1, n - 1) : Math.floor(t * n),
          v1 = values[i],
          v2 = values[i + 1],
          v0 = i > 0 ? values[i - 1] : 2 * v1 - v2,
          v3 = i < n - 1 ? values[i + 2] : 2 * v2 - v1;
      return basis((t - i / n) * n, v0, v1, v2, v3);
    };
    ]] *)
Definition interpolateBasis (values : list number) (t : number) : number :=
  let n := ofZ (Z.of_nat (length values) - 1) in
  let '(t, i) :=
    if le t (ofZ 0) then (ofZ 0, ofZ 0)
    else if ge t (ofZ 1) then (ofZ 1, sub n (ofZ 1))
    else (t, Math_floor (mul t n)) in
  let v1 := ToNumber (index values i) in
  let v2 := ToNumber (index values (add i (ofZ 1))) in
  let v0 := if gt i (ofZ 0) then ToNumber (index values (sub i (ofZ 1)))
            else sub (mul (ofZ 2) v1) v2 in
  let v3 := if lt i (sub n (ofZ 1)) then ToNumber (index values (add i (ofZ 2)))
            else sub (mul (ofZ 2) v2) v1 in
  basis (mul (sub t (div i n)) n) v0 v1 v2 v3.

(** d3-interpolate [interpolateRgbBasis]: one spline per channel. *)
Definition interpolateRgbBasis (colors : list rgb) (t : number) : string :=
  rgb_formatRgb
    {| r := interpolateBasis (r <$> colors) t;
       g := interpolateBasis (g <$> colors) t;
       b := interpolateBasis (b <$> colors) t |}.

(** d3-scale-chromatic: the 11-class RdYlBu scheme, the last entry of
    [scheme] and the one [interpolateRdYlBu] ramps over:
    ["a50026d73027f46d43fdae61fee090ffffbfe0f3f8abd9e974add14575b4313695"]. *)
Definition scheme_RdYlBu_11 : list rgb :=
  (λ c : Z * Z * Z, mkRgb (ofZ c.1.1) (ofZ c.1.2) (ofZ c.2)) <$>
  [ (165, 0, 38); (215, 48, 39); (244, 109, 67); (253, 174, 97);
    (254, 224, 144); (255, 255, 191); (224, 243, 248); (171, 217, 233);
    (116, 173, 209); (69, 117, 180); (49, 54, 149) ].

Definition interpolateRdYlBu : number → string :=
  interpolateRgbBasis scheme_RdYlBu_11.

(** ** d3-scale *)

(** d3-scale: sequential scale

    [[
    function scale(x) {
      return x == null || isNaN(x = +x) ? unknown
        : interpolator(k10 === 0 ? 0.5
            : (x = (transform(x) - t0) * k10,
               clamp ? Math.max(0, Math.min(1, x)) : x));
    }
    scale.domain = function(_) {
      [x0, x1] = _, t0 = transform(x0 = +x0), t1 = transform(x1 = +x1),
      k10 = t0 === t1 ? 0 : 1 / (t1 - t0); ...
    ]]
    with [transform] the identity, [clamp] false and [unknown] undefined. *)
Definition sequential_k10 (x0 x1 : number) : number :=
  if strict_eq x0 x1 then ofZ 0 else div (ofZ 1) (sub x1 x0).

(** The argument handed to the interpolator. *)
Definition sequential_t (x0 x1 x : number) : number :=
  let k10 := sequential_k10 x0 x1 in
  if strict_eq k10 (ofZ 0) then ofQ (1 # 2) else mul (sub x x0) k10.

Definition scaleSequential {C : Type} (interpolator : number → C)
    (x0 x1 : number) (x : option number) : option C :=
  match x with
  | None => None
  | Some x =>
      if isNaN x then None else Some (interpolator (sequential_t x0 x1 x))
  end.

(** d3-scale: linear scale with a two-point domain and range

    [[
    function normalize(a, b) {
      return (b -= (a = +a))
          ? function(x) { return (x - a) / b; }
          : constant(isNaN(b) ? NaN : 0.5);
    }
    function bimap(domain, range, interpolate) {
      var d0 = domain[0], d1 = domain[1], r0 = range[0], r1 = range[1];
      if (d1 < d0) d0 = normalize(d1, d0), r0 = interpolate(r1, r0);
      else d0 = normalize(d0, d1), r0 = interpolate(r0, r1);
      return function(x) { return r0(d0(x)); };
    }
    function scale(x) {
      return x == null || isNaN(x = +x) ? unknown : output(x);
    }
    ]]
    [domain(_)] coerces its entries to numbers; the interpolator of two
    numbers is [interpolateNumber]: [a * (1 - t) + b * t]. *)
Definition normalize (a b x : number) : number :=
  let b' := sub b a in
  if truthy b' then div (sub x a) b'
  else if isNaN b' then NaN else ofQ (1 # 2).

Definition interpolateNumber (a b t : number) : number :=
  add (mul a (sub (ofZ 1) t)) (mul b t).

Definition bimap (d0 d1 r0 r1 x : number) : number :=
  if lt d1 d0 then interpolateNumber r1 r0 (normalize d1 d0 x)
  else interpolateNumber r0 r1 (normalize d0 d1 x).

Definition scaleLinear (domain : option number * option number)
    (range : number * number) (x : option number) : option number :=
  match x with
  | None => None
  | Some x =>
      if isNaN x then None
      else Some (bimap (ToNumber domain.1) (ToNumber domain.2)
                       range.1 range.2 x)
  end.

(** d3-scale: band scale

    [[
    var n = domain().length, reverse = r1 < r0,
        start = reverse ? r1 : r0, stop = reverse ? r0 : r1;
    step = (stop - start) / Math.max(1, n - paddingInner + paddingOuter * 2);
    start += (stop - start - step * (n - paddingInner)) * align;
    bandwidth = step * (1 - paddingInner);
    var values = sequence(n).map(function(i) { return start + step * i; });
    return ordinalRange(reverse ? values.reverse() : values);
    ]]
    with [align = 0.5], no rounding, and [padding(p)] setting
    [paddingInner = Math.min(1, paddingOuter = p)].  The scale maps a
    domain value to the entry of [values] at its index in the domain, and
    any other value to [undefined]. *)
Record BandScale : Type := mkBand {
  band_domain : list number;
  band_values : list number;
  bandwidth : number;
}.

Definition scaleBand (domain : list number) (r0 r1 : number) (padding : number)
  : BandScale :=
  let domain := distinct domain in
  let paddingOuter := padding in
  let paddingInner := Math_min (ofZ 1) paddingOuter in
  let n := ofZ (Z.of_nat (length domain)) in
  let reversed := lt r1 r0 in
  let start := if reversed then r1 else r0 in
  let stop := if reversed then r0 else r1 in
  let step :=
    div (sub stop start)
        (Math_max (ofZ 1)
           (add (sub n paddingInner) (mul paddingOuter (ofZ 2)))) in
  let start :=
    add start
        (mul (sub (sub stop start) (mul step (sub n paddingInner)))
             (ofQ (1 # 2))) in
  let values :=
    (λ i, add start (mul step (ofZ (Z.of_nat i)))) <$> seq 0 (length domain) in
  {| band_domain := domain;
     band_values := if reversed then reverse values else values;
     bandwidth := mul step (sub (ofZ 1) paddingInner) |}.

(** [scale(d)] *)
Definition band (s : BandScale) (d : number) : option number :=
  i ← list_find (λ k, k = d) (band_domain s);
  band_values s !! i.1.

(** ** Colour scale *)

(** [[
    function buildColorScale() {
      return d3.scaleSequential(d3.interpolateRdYlBu)
        .domain([TEMP_MAX, TEMP_MIN]);
    }
    ]] *)
Definition buildColorScale : option number → option string :=
  scaleSequential interpolateRdYlBu (ofZ TEMP_MAX) (ofZ TEMP_MIN).

(** ** Sparklines *)

(** The points of one path: [d3.line()] coerces each coordinate with [+]. *)
Definition Path : Type := list (number * number).

Definition pad : number := ofZ 4.

Section drawSparklines.
Context (cells : list Cell) (xScale yScale : BandScale).

Definition cellW : number := bandwidth xScale.
Definition cellH : number := bandwidth yScale.

(** [[
    const tempMin = d3.min(cells, c => d3.min(c.days, d => d.min));
    const tempMax = d3.max(cells, c => d3.max(c.days, d => d.max));
    ]] *)
Definition tempMin : option number :=
  d3_min cells (λ c, d3_min (days c) (λ d, Some (min d))).
Definition tempMax : option number :=
  d3_max cells (λ c, d3_max (days c) (λ d, Some (max d))).

Definition cx (cell : Cell) : number := ToNumber (band xScale (year cell)).
Definition cy (cell : Cell) : number := ToNumber (band yScale (month cell)).

(** [[
    const sparkX = d3.scaleLinear()
      .domain([1, cell.days.length])
      .range([cx + pad, cx + cellW - pad]);
    const sparkY = d3.scaleLinear()
      .domain([tempMin, tempMax])
      .range([cy + cellH - pad, cy + pad]);
    ]] *)
Definition sparkX (cell : Cell) : option number → option number :=
  scaleLinear (Some (ofZ 1), Some (ofZ (Z.of_nat (length (days cell)))))
              (add (cx cell) pad, sub (add (cx cell) cellW) pad).

Definition sparkY (cell : Cell) : option number → option number :=
  scaleLinear (tempMin, tempMax)
              (sub (add (cy cell) cellH) pad, add (cy cell) pad).

(** [[
    const lineMax = d3.line().x((_d, i) => sparkX(i + 1)).y(d => sparkY(d.max));
    const lineMin = d3.line().x((_d, i) => sparkX(i + 1)).y(d => sparkY(d.min));
    ]] *)
Definition line (cell : Cell) (field : DailyRecord → number) : Path :=
  imap (λ i d, (ToNumber (sparkX cell (Some (add (ofZ (Z.of_nat i)) (ofZ 1)))),
                ToNumber (sparkY cell (Some (field d)))))
       (days cell).

(** The two paths appended for every cell: the daily max line, then the
    daily min line. *)
Definition drawSparklines : list (Path * Path) :=
  (λ cell, (line cell max, line cell min)) <$> cells.

End drawSparklines.

(** ** The matrix and its interactions *)

(** The module-level [mode], either ["max"] or ["min"]. *)
Inductive Mode : Type := ModeMax | ModeMin.

#[global] Instance Mode_eq_dec : EqDecision Mode.
Proof. solve_decision. Defined.

(** One [rect.cell] with the datum bound to it. *)
Record Rect : Type := mkRect {
  datum : Cell;
  rect_x : option number;
  rect_y : option number;
  rect_width : number;
  rect_height : number;
  fill : option string;
}.

(** The [#tooltip] element. *)
Record Tooltip : Type := mkTooltip {
  tooltip_display : string;
  tooltip_left : number;
  tooltip_top : number;
  tooltip_html : string;
}.

(** What the program reads and writes: the variable [mode], the
    [rect.cell] elements of [#chart] with their sparklines, the text of
    [#mode-label], and [#tooltip]. *)
Record Page : Type := mkPage {
  mode : Mode;
  rects : list Rect;
  sparklines : list (Path * Path);
  mode_label : string;
  tooltip : Tooltip;
}.

Definition colorOf (m : Mode) (d : Cell) : option string :=
  buildColorScale (match m with ModeMax => avgMax d | ModeMin => avgMin d end).

Definition mode_name (m : Mode) : string :=
  match m with ModeMax => "Max" | ModeMin => "Min" end.

(** The two band scales [drawMatrix] builds. *)
Definition matrix_xScale (years : list number) : BandScale :=
  scaleBand years (ofZ 0) (ofZ (Z.of_nat (length years) * cellWidth))
            (ofQ (5 # 100)).

Definition matrix_yScale : BandScale :=
  scaleBand ((λ i, ofZ (Z.of_nat i)) <$> seq 0 12)
            (ofZ 0) (ofZ (12 * cellHeight)) (ofQ (5 # 100)).

(** [drawMatrix(cells, years)] on a page whose [#chart] is empty: the
    rectangles are filled by [d => colorScale(initialAccessor(d))] with
    [initialAccessor = d => d.avgMax]; [mode], [#mode-label] and
    [#tooltip] are not written. *)
Definition drawMatrix (cells : list Cell) (years : list number) (p : Page)
  : Page :=
  let xScale :=
    scaleBand years (ofZ 0) (ofZ (Z.of_nat (length years) * cellWidth))
              (ofQ (5 # 100)) in
  let yScale :=
    scaleBand ((λ i, ofZ (Z.of_nat i)) <$> seq 0 12)
              (ofZ 0) (ofZ (12 * cellHeight)) (ofQ (5 # 100)) in
  let colorScale := buildColorScale in
  let initialAccessor := avgMax in
  {| mode := mode p;
     rects :=
       (λ d, {| datum := d;
                rect_x := band xScale (year d);
                rect_y := band yScale (month d);
                rect_width := bandwidth xScale;
                rect_height := bandwidth yScale;
                fill := colorScale (initialAccessor d) |}) <$> cells;
     sparklines := drawSparklines cells xScale yScale;
     mode_label := mode_label p;
     tooltip := tooltip p |}.

(** The click handler, once the 400 ms transition of the fills has ended:
    [[
    mode = mode === "max" ? "min" : "max";
    const colorScale = buildColorScale();
    const accessor   = mode === "max" ? d => d.avgMax : d => d.avgMin;
    svg.selectAll("rect.cell").transition().duration(400)
      .attr("fill", d => colorScale(accessor(d)));
    d3.select("#mode-label")
      .text(`Showing: ${mode === "max" ? "Max" : "Min"} Temp`);
    ]] *)
Definition on_click (p : Page) : Page :=
  let mode' := match mode p with ModeMax => ModeMin | ModeMin => ModeMax end in
  let colorScale := buildColorScale in
  let accessor := match mode' with ModeMax => avgMax | ModeMin => avgMin end in
  {| mode := mode';
     rects :=
       (λ rect, {| datum := datum rect;
                   rect_x := rect_x rect;
                   rect_y := rect_y rect;
                   rect_width := rect_width rect;
                   rect_height := rect_height rect;
                   fill := colorScale (accessor (datum rect)) |}) <$> rects p;
     sparklines := sparklines p;
     mode_label := "Showing: " +:+ mode_name mode' +:+ " Temp";
     tooltip := tooltip p |}.

Definition newline : string := String (Ascii.ascii_of_nat 10) EmptyString.

(** The text of the tooltip.  [d.year] is an integer or [NaN]. *)
Definition tooltip_label (m : Mode) (d : Cell) (temp : number) : string :=
  "<strong>" +:+ default "undefined" (index MONTH_NAMES (month d))
    +:+ " " +:+ int_toString (year d)
    +:+ "</strong><br/>" +:+ newline +:+ "                       Avg "
    +:+ mode_name m +:+ ": " +:+ toFixed1 temp +:+ "°C".

(** The [mouseover] handler of rectangle [i].  [temp.toFixed(1)] throws a
    [TypeError] when [temp] is [undefined], before the tooltip is
    touched. *)
Definition on_mouseover (i : nat) (pageX pageY : number) (p : Page)
  : option Page :=
  match rects p !! i with
  | None => Some p
  | Some rect =>
      let d := datum rect in
      match (match mode p with ModeMax => avgMax d | ModeMin => avgMin d end) with
      | None => None
      | Some temp =>
          Some {| mode := mode p;
                  rects := rects p;
                  sparklines := sparklines p;
                  mode_label := mode_label p;
                  tooltip :=
                    {| tooltip_display := "block";
                       tooltip_left := add pageX (ofZ 14);
                       tooltip_top := sub pageY (ofZ 36);
                       tooltip_html := tooltip_label (mode p) d temp |} |}
      end
  end.

(** [hideTooltip] *)
Definition on_mouseout (p : Page) : Page :=
  {| mode := mode p;
     rects := rects p;
     sparklines := sparklines p;
     mode_label := mode_label p;
     tooltip :=
       {| tooltip_display := "none";
          tooltip_left := tooltip_left (tooltip p);
          tooltip_top := tooltip_top (tooltip p);
          tooltip_html := tooltip_html (tooltip p) |} |}.

Inductive Event : Type :=
| Click
| MouseOver (i : nat) (pageX pageY : number)
| MouseOut.

#[global] Instance Event_eq_dec : EqDecision Event.
Proof. solve_decision. Defined.

(** One event.  A handler that throws leaves the page as it was. *)
Definition handle (p : Page) (e : Event) : Page :=
  match e with
  | Click => on_click p
  | MouseOver i pageX pageY => default p (on_mouseover i pageX pageY p)
  | MouseOut => on_mouseout p
  end.

Definition run (events : list Event) (p : Page) : Page :=
  fold_left handle events p.

(** The page as the script finds it: [mode] is ["max"]; the text of
    [#mode-label] and the state of [#tooltip] come from the document. *)
Definition blank_page (label : string) (tip : Tooltip) : Page :=
  {| mode := ModeMax; rects := []; sparklines := [];
     mode_label := label; tooltip := tip |}.

(** [array.sort()] without a comparator orders by the text of the
    elements; here the elements are distinct integers. *)
Definition text_le (a b : number) : Prop :=
  String.leb (int_toString a) (int_toString b).

#[global] Instance text_le_dec : RelDecision text_le.
Proof. intros a b. unfold text_le. apply _. Defined.

(** The entry point, once the rows are parsed:
    [[
    const filtered = filterLastYears(data, YEAR_COUNT);
    const cells    = aggregateByYearMonth(filtered);
    const years    = [...new Set(filtered.map(d => d.date.getFullYear()))].sort();
    drawMatrix(cells, years);
    ]] *)
Definition render (data : list DailyRecord) (label : string) (tip : Tooltip)
  : Page :=
  let filtered := filterLastYears data (ofZ YEAR_COUNT) in
  let cells := aggregateByYearMonth filtered in
  let years := merge_sort text_le (distinct (year_of <$> filtered)) in
  drawMatrix cells years (blank_page label tip).

(** The years the entry point hands to [drawMatrix]. *)
Definition entry_years (data : list DailyRecord) : list number :=
  merge_sort text_le
    (distinct (year_of <$> filterLastYears data (ofZ YEAR_COUNT))).

(** ** The y scale of the sparklines in binary64 *)

(** The arithmetic of JavaScript numbers as it is: IEEE 754 binary64, with
    every operation rounded to nearest, ties to even.  The definitions
    below are the expressions of [d3.scaleBand], [d3.scaleLinear] and
    [drawSparklines] given above, on a domain of [n] distinct values and
    on numbers that are not [NaN], evaluated in this arithmetic. *)
Module Binary64.

Definition prec : Z := 53.
Definition emax : Z := 1024.

Definition ofZ (z : Z) : spec_float := binary_normalize prec emax z 0 false.
Definition add : spec_float → spec_float → spec_float := SFadd prec emax.
Definition sub : spec_float → spec_float → spec_float := SFsub prec emax.
Definition mul : spec_float → spec_float → spec_float := SFmul prec emax.
Definition div : spec_float → spec_float → spec_float := SFdiv prec emax.
Definition lt : spec_float → spec_float → bool := SFltb.

Definition truthy (x : spec_float) : bool :=
  match x with
  | S754_zero _ | S754_nan => false
  | _ => true
  end.

Definition Math_max (a b : spec_float) : spec_float := if lt a b then b else a.
Definition Math_min (a b : spec_float) : spec_float := if lt b a then b else a.

Definition normalize (a b x : spec_float) : spec_float :=
  let b' := sub b a in
  if truthy b' then div (sub x a) b'
  else match b' with
       | S754_nan => S754_nan
       | _ => div (ofZ 1) (ofZ 2)
       end.

Definition interpolateNumber (a b t : spec_float) : spec_float :=
  add (mul a (sub (ofZ 1) t)) (mul b t).

Definition bimap (d0 d1 r0 r1 x : spec_float) : spec_float :=
  if lt d1 d0 then interpolateNumber r1 r0 (normalize d1 d0 x)
  else interpolateNumber r0 r1 (normalize d0 d1 x).

(** The band positions and the bandwidth of a band scale. *)
Definition scaleBand (n : nat) (r0 r1 padding : spec_float)
  : list spec_float * spec_float :=
  let paddingOuter := padding in
  let paddingInner := Math_min (ofZ 1) paddingOuter in
  let n' := ofZ (Z.of_nat n) in
  let reversed := lt r1 r0 in
  let start := if reversed then r1 else r0 in
  let stop := if reversed then r0 else r1 in
  let step :=
    div (sub stop start)
        (Math_max (ofZ 1)
           (add (sub n' paddingInner) (mul paddingOuter (ofZ 2)))) in
  let start :=
    add start
        (mul (sub (sub stop start) (mul step (sub n' paddingInner)))
             (div (ofZ 1) (ofZ 2))) in
  let values := (λ i, add start (mul step (ofZ (Z.of_nat i)))) <$> seq 0 n in
  (if reversed then reverse values else values,
   mul step (sub (ofZ 1) paddingInner)).

(** [yScale] of [drawMatrix]; the literal [0.05] is the double nearest to
    5/100. *)
Definition matrix_yScale : list spec_float * spec_float :=
  scaleBand 12 (ofZ 0) (ofZ (12 * cellHeight)) (div (ofZ 5) (ofZ 100)).

(** [sparkY(x)] in a cell whose band starts at [cy]. *)
Definition sparkY (tempMin tempMax cy cellH x : spec_float) : spec_float :=
  bimap tempMin tempMax (sub (add cy cellH) (ofZ 4)) (add cy (ofZ 4)) x.

(** [sparkY(x) - cy] for a cell of the given month: the y pixel in the
    cell's own frame. *)
Definition offset (month : nat) (tempMin tempMax x : Z) : option spec_float :=
  cy ← matrix_yScale.1 !! month;
  Some (sub (sparkY (ofZ tempMin) (ofZ tempMax) cy matrix_yScale.2 (ofZ x)) cy).

End Binary64.

(** * Part II: the notions of the statements *)

(** ** Numeric entries and means *)

(** The numeric entries of a list of values: [undefined] and [NaN] are the
    entries [d3.max], [d3.min] and [d3.mean] skip. *)
Definition numeric (v : option number) : option Qc :=
  match v with
  | Some (Num q) => Some q
  | _ => None
  end.

Definition numerics {A : Type} (values : list A) (valueof : A → option number)
  : list Qc :=
  omap (λ a, numeric (valueof a)) values.

Definition Qc_sum (qs : list Qc) : Qc := foldr Qcplus 0%Qc qs.

(** The arithmetic mean of a non-empty list of rationals. *)
Definition mean_of (qs : list Qc) : Qc :=
  (Qc_sum qs / Qc_of_Z (Z.of_nat (length qs)))%Qc.

(** The mean [d3.mean] returns: over the numeric entries only, and
    [undefined] when there is none. *)
Definition mean_of_numeric (xs : list number) : option number :=
  match omap (λ x, numeric (Some x)) xs with
  | [] => None
  | qs => Some (Num (mean_of qs))
  end.

(** The arithmetic mean in JavaScript arithmetic, over every entry: the
    sum of the entries divided by their count.  One [NaN] entry makes it
    [NaN]. *)
Definition arithmetic_mean (xs : list number) : number :=
  div (foldr add (ofZ 0) xs) (ofZ (Z.of_nat (length xs))).

(** ** Numeric text *)

(** The text is not a numeric literal. *)
Definition malformed (text : string) : Prop := StringNumericLiteral text = NotNumeric.

(** The host's unary [+] gives, on the numeric fields of the rows, the
    number the language defines. *)
Definition converts (plus : string → number) (rows : list Raw.Row) : Prop :=
  ∀ row, row ∈ rows →
    StringToNumber (Raw.max_temperature row) = Some (plus (Raw.max_temperature row))
    ∧ StringToNumber (Raw.min_temperature row) = Some (plus (Raw.min_temperature row)).

(** ** Years *)

(** [m] is the greatest year occurring among the rows of [data]. *)
Definition greatest_year (data : list DailyRecord) (m : Z) : Prop :=
  (∃ d, d ∈ data ∧ year_of d = ofZ m)
  ∧ ∀ d y, d ∈ data → year_of d = ofZ y → y ≤ m.

Definition year_Z (d : DailyRecord) : option Z :=
  match date d with
  | InvalidDate => None
  | LocalDate y _ _ => Some y
  end.

(** The year values present in [data]. *)
Definition years_present (data : list DailyRecord) : list Z := omap year_Z data.

Definition year_desc : relation Z := λ a b, b ≤ a.

#[global] Instance year_desc_dec : RelDecision year_desc := λ a b, decide (b ≤ a).

(** The [N] greatest distinct values of [ys]: the first [N] entries of the
    distinct values in decreasing order. *)
Definition top_years (N : nat) (ys : list Z) : list Z :=
  take N (merge_sort year_desc (remove_dups ys)).

(** The filter as the specification words it: keep the rows whose year
    is among the [N] greatest distinct years present in [data]. *)
Definition year_in_top (N : nat) (data : list DailyRecord) (d : DailyRecord)
  : bool :=
  match year_Z d with
  | Some y => bool_decide (y ∈ top_years N (years_present data))
  | None => false
  end.

Definition keep_top_years (data : list DailyRecord) (N : nat)
  : list DailyRecord :=
  filter (λ d, year_in_top N data d) data.

(** No calendar year is missing between two years of [ys]. *)
Definition consecutive_years (ys : list Z) : Prop :=
  ∀ y1 y2 y, y1 ∈ ys → y2 ∈ ys → y1 ≤ y ≤ y2 → y ∈ ys.

(** ** Cells *)

Definition month_of (d : DailyRecord) : number := getMonth (date d).

Definition cell_key (c : Cell) : number * number := (year c, month c).

(** The rows of [data] whose date has the given year and month. *)
Definition rows_of (data : list DailyRecord) (y m : number) : list DailyRecord :=
  filter (λ d, year_of d = y ∧ month_of d = m) data.

(** [m] is the least numeric [min] over all days of all cells. *)
Definition global_min (cells : list Cell) (m : Qc) : Prop :=
  (∃ c d, c ∈ cells ∧ d ∈ days c ∧ min d = Num m)
  ∧ ∀ c d q, c ∈ cells → d ∈ days c → min d = Num q → (m ≤ q)%Qc.

(** [m] is the greatest numeric [max] over all days of all cells. *)
Definition global_max (cells : list Cell) (m : Qc) : Prop :=
  (∃ c d, c ∈ cells ∧ d ∈ days c ∧ max d = Num m)
  ∧ ∀ c d q, c ∈ cells → d ∈ days c → max d = Num q → (q ≤ m)%Qc.

(** ** Display *)

(** The two fixed endpoint colours of the ramp: the first and the last
    entry of the scheme. *)
Definition red_end : string := "rgb(165, 0, 38)".
Definition blue_end : string := "rgb(49, 54, 149)".



(** The fills show the current mode. *)
Definition fills_show_mode (p : Page) : Prop :=
  Forall (λ rect, fill rect = colorOf (mode p) (datum rect)) (rects p).

(** The label names the current mode. *)
Definition label_shows_mode (p : Page) : Prop :=
  mode_label p = "Showing: " +:+ mode_name (mode p) +:+ " Temp".

(** ** Interactions *)

(** The number of clicks among the events. *)
Definition clicks (events : list Event) : nat :=
  length (filter (λ e, e = Click) events).

Definition toggled (m : Mode) : Mode :=
  match m with ModeMax => ModeMin | ModeMin => ModeMax end.

(** The field the current mode shows. *)
Definition mode_field (m : Mode) : DailyRecord → number :=
  match m with ModeMax => max | ModeMin => min end.

Definition mode_average (m : Mode) : Cell → option number :=
  match m with ModeMax => avgMax | ModeMin => avgMin end.

(** * Part III: proofs *)

(** ** Tactics *)

Ltac qc_simpl :=
  unfold Qclt, Qcle, Qcminus, Qcdiv in *;
  repeat match goal with
  | H : @eq Qc _ _ |- _ => apply (f_equal this) in H
  | |- @eq Qc _ _ => apply Qc_is_canon
  end;
  cbn [this Qcplus Qcopp Qcmult Qcinv Q2Qc Qc_of_Z] in *;
  repeat match goal with
  | H : context [Qred ?x] |- _ => rewrite (Qred_correct x) in H
  | |- context [Qred ?x] => rewrite (Qred_correct x)
  end.

(** Decidable equalities on closed terms are settled by evaluation. *)
Ltac by_compute := apply (bool_decide_unpack _); vm_compute; exact I.

(** ** Distinct values *)

Lemma elem_of_distinct_from {A : Type} `{EqDecision A} (l seen : list A) x :
  x ∈ distinct_from seen l ↔ x ∈ l ∧ x ∉ seen.
Proof.
  revert seen. induction l as [|a l IH]; intros seen; cbn.
  - split; [by intros ?%elem_of_nil|by intros [?%elem_of_nil _]].
  - case_decide as Ha.
    + rewrite IH, elem_of_cons. naive_solver.
    + rewrite !elem_of_cons, IH, not_elem_of_cons.
      destruct (decide (x = a)); naive_solver.
Qed.

Lemma NoDup_distinct_from {A : Type} `{EqDecision A} (l seen : list A) :
  NoDup (distinct_from seen l).
Proof.
  revert seen. induction l as [|a l IH]; intros seen; cbn; [constructor|].
  case_decide; [done|]. apply NoDup_cons. split; [|done].
  rewrite elem_of_distinct_from, not_elem_of_cons. naive_solver.
Qed.

Lemma elem_of_distinct {A : Type} `{EqDecision A} (l : list A) x :
  x ∈ distinct l ↔ x ∈ l.
Proof.
  unfold distinct. rewrite elem_of_distinct_from.
  split; [by intros [? _]|]. intros ?. split; [done|apply not_elem_of_nil].
Qed.

Lemma NoDup_distinct {A : Type} `{EqDecision A} (l : list A) : NoDup (distinct l).
Proof. apply NoDup_distinct_from. Qed.

Lemma distinct_from_NoDup_id {A : Type} `{EqDecision A} (l seen : list A) :
  NoDup l → (∀ x, x ∈ l → x ∉ seen) → distinct_from seen l = l.
Proof.
  intros Hnd. revert seen. induction Hnd as [|a l Ha Hl IH]; intros seen Hs; [done|].
  cbn. rewrite decide_False by (apply Hs; by left). f_equal. apply IH.
  intros x Hx. rewrite not_elem_of_cons. split; [by intros ->|].
  apply Hs. by right.
Qed.

Lemma distinct_NoDup_id {A : Type} `{EqDecision A} (l : list A) :
  NoDup l → distinct l = l.
Proof.
  intros Hnd. apply distinct_from_NoDup_id; [done|].
  intros x _. apply not_elem_of_nil.
Qed.

(** ** [d3.max] *)

Lemma lt_Num x y : lt (Num x) (Num y) = bool_decide (x < y)%Qc.
Proof. reflexivity. Qed.

Lemma ge_refl_Num x : ge (Num x) (Num x) = true.
Proof. unfold ge, le. apply bool_decide_eq_true. reflexivity. Qed.

Lemma d3_max_step_NaN acc : d3_max_step acc (Some NaN) = acc.
Proof. destruct acc as [[|m]|]; reflexivity. Qed.

Lemma d3_max_step_None x : d3_max_step None (Some (Num x)) = Some (Num x).
Proof. unfold d3_max_step. by rewrite ge_refl_Num. Qed.

Lemma d3_max_step_Some m x :
  d3_max_step (Some (Num m)) (Some (Num x))
  = if bool_decide (m < x)%Qc then Some (Num x) else Some (Num m).
Proof. unfold d3_max_step. cbn. by rewrite orb_false_r. Qed.

Lemma d3_max_fold_Some {A : Type} (valueof : A → option number) (values : list A) :
  ∀ m0 : Qc,
    ∃ m, fold_left (λ acc a, d3_max_step acc (valueof a)) values (Some (Num m0))
         = Some (Num m)
         ∧ (m = m0 ∨ m ∈ numerics values valueof)
         ∧ (m0 ≤ m)%Qc
         ∧ (∀ q, q ∈ numerics values valueof → (q ≤ m)%Qc).
Proof.
  unfold numerics.
  induction values as [|a values IH]; intros m0; cbn [fold_left omap list_omap].
  - exists m0. split_and!; [done|by left|done|by intros ? ?%elem_of_nil].
  - destruct (valueof a) as [[|x]|] eqn:Ha; cbn [numeric].
    + rewrite d3_max_step_NaN. apply IH.
    + rewrite d3_max_step_Some. case_bool_decide as Hlt.
      * destruct (IH x) as (m & Hr & Hin & Hle & Hall).
        exists m. split_and!; [done| | |].
        -- right. destruct Hin as [->|Hin]; [left|right]; done.
        -- trans x; [by apply Qclt_le_weak|done].
        -- intros q [->|Hq]%elem_of_cons; [done|by apply Hall].
      * destruct (IH m0) as (m & Hr & Hin & Hle & Hall).
        exists m. split_and!; [done| |done|].
        -- destruct Hin as [->|Hin]; [by left|right; by right].
        -- intros q [->|Hq]%elem_of_cons; [|by apply Hall].
           trans m0; [by apply Qcle_ngt|done].
    + apply IH.
Qed.

Lemma d3_max_spec {A : Type} (valueof : A → option number) (values : list A) :
  (d3_max values valueof = None ∧ numerics values valueof = [])
  ∨ ∃ m, d3_max values valueof = Some (Num m)
         ∧ m ∈ numerics values valueof
         ∧ (∀ q, q ∈ numerics values valueof → (q ≤ m)%Qc).
Proof.
  unfold d3_max, numerics.
  induction values as [|a values IH]; cbn [fold_left omap list_omap]; [by left|].
  destruct (valueof a) as [[|x]|] eqn:Ha; cbn [numeric].
  - rewrite d3_max_step_NaN. apply IH.
  - rewrite d3_max_step_None. right.
    destruct (d3_max_fold_Some valueof values x) as (m & Hr & Hin & Hle & Hall).
    exists m. split_and!; [done| |].
    + destruct Hin as [->|Hin]; [left|right]; done.
    + intros q [->|Hq]%elem_of_cons; [done|by apply Hall].
  - apply IH.
Qed.

(** ** The year window (claim C3) *)

Lemma year_of_cases d : year_of d = NaN ∨ ∃ y, year_of d = ofZ y.
Proof. unfold year_of. destruct (date d); cbn; eauto. Qed.

Lemma elem_of_year_numerics (data : list DailyRecord) q :
  q ∈ numerics data (λ d, Some (year_of d))
  ↔ ∃ d, d ∈ data ∧ year_of d = Num q.
Proof.
  unfold numerics. rewrite list_elem_of_omap.
  split; intros (d & Hd & Hq); exists d; split; try done.
  - cbn in Hq. destruct (year_of d); by simplify_eq.
  - cbn. by rewrite Hq.
Qed.

Lemma d3_max_greatest_year data m :
  greatest_year data m →
  d3_max data (λ d, Some (year_of d)) = Some (ofZ m).
Proof.
  intros [(d0 & Hd0 & Hy0) Hmax].
  destruct (d3_max_spec (λ d, Some (year_of d)) data) as [[_ Hnil]|(q & -> & Hin & Hall)].
  - assert (Qc_of_Z m ∈ numerics data (λ d, Some (year_of d))) as Hm
      by (apply elem_of_year_numerics; eauto).
    rewrite Hnil in Hm. by apply elem_of_nil in Hm.
  - apply elem_of_year_numerics in Hin as (d & Hd & Hq).
    destruct (year_of_cases d) as [Hn|[y Hy]]; [congruence|].
    assert (q = Qc_of_Z y) as -> by (unfold ofZ in Hy; congruence).
    unfold ofZ. do 3 f_equal. apply Z.le_antisymm; [by eapply Hmax|].
    apply Z2Qc_inj_le, Hall, elem_of_year_numerics. eauto.
Qed.

Lemma greatest_year_exists data :
  (∃ d, d ∈ data ∧ date d ≠ InvalidDate) → ∃ m, greatest_year data m.
Proof.
  intros (d0 & Hd0 & Hv).
  destruct (d3_max_spec (λ d, Some (year_of d)) data) as [[_ Hnil]|(q & _ & Hin & Hall)].
  - exfalso. destruct (date d0) as [|y mo dd] eqn:Hdate; [done|].
    assert (Qc_of_Z y ∈ numerics data (λ d, Some (year_of d))) as Hm.
    { apply elem_of_year_numerics. exists d0. split; [done|].
      unfold year_of. by rewrite Hdate. }
    rewrite Hnil in Hm. by apply elem_of_nil in Hm.
  - apply elem_of_year_numerics in Hin as (d & Hd & Hq).
    destruct (year_of_cases d) as [Hn|[y Hy]]; [congruence|].
    exists y. split; [eauto|].
    intros d' y' Hd' Hy'. apply Z2Qc_inj_le.
    assert (q = Qc_of_Z y) as <- by (unfold ofZ in Hy; congruence).
    apply Hall, elem_of_year_numerics. eauto.
Qed.

(** Claim C3.  For every non-empty input sequence and every window size
    [n], with [maxYear] the greatest year occurring among the input rows,
    [filterLastYears data n] is exactly the subsequence of the rows whose
    year satisfies [year > maxYear - n]. *)
Theorem filterLastYears_window (data : list DailyRecord) (n : number) (maxYear : Z) :
  data ≠ [] →
  greatest_year data maxYear →
  filterLastYears data n
  = filter (λ d, gt (year_of d) (sub (ofZ maxYear) n)) data.
Proof.
  intros _ Hmax. unfold filterLastYears.
  by rewrite (d3_max_greatest_year _ _ Hmax).
Qed.

(** ** The filter keeps the latest year (claim C10) *)

Lemma filterLastYears_call_spec (a : nat) (n : number) (σ : store) data :
  σ !! a = Some data →
  ∃ r σ', filterLastYears_call a n σ = Some (r, σ')
          ∧ σ' !! r = Some (filterLastYears data n)
          ∧ r ≠ a
          ∧ ∀ l, l ≠ r → σ' !! l = σ !! l.
Proof.
  intros Ha. unfold filterLastYears_call, Array_filter. rewrite Ha. cbn.
  eexists _, _. split; [reflexivity|].
  assert (fresh (dom σ) ≠ a) as Hne.
  { intros Heq. apply (is_fresh (dom σ)). rewrite Heq. apply elem_of_dom. eauto. }
  split_and!; [by rewrite lookup_insert_eq|done|].
  intros l Hl. by rewrite lookup_insert_ne.
Qed.

Lemma ge_one_inv n : ge n (ofZ 1) = true → ∃ q, n = Num q ∧ (1 ≤ q)%Qc.
Proof.
  destruct n as [|q]; cbn; [done|]. intros Hq%bool_decide_eq_true.
  exists q. split; [done|]. by rewrite <-Z2Qc_inj_1.
Qed.

Lemma filterLastYears_sublist data n : filterLastYears data n `sublist_of` data.
Proof. apply sublist_filter. Qed.

(** Claim C10 fails as stated: on a non-empty input whose only row has
    an Invalid Date, [d3.max] finds no year and the filter keeps
    nothing, also for a window of one year. *)
Lemma filterLastYears_invalid_dates_empty :
  let data := [mkDaily InvalidDate (ofZ 30) (ofZ 20)] in
  data ≠ [] ∧ ge (ofZ 1) (ofZ 1) = true ∧ filterLastYears data (ofZ 1) = [].
Proof. split_and!; [done|by vm_compute|by vm_compute]. Qed.

(** Claim C10, amended.  For every input sequence with at least one row
    of valid date and every window size [n >= 1], [filterLastYears data n]
    is non-empty: the rows bearing the greatest year are all retained; the
    result is a subsequence of the input (the retained rows in their input
    order); and the call, which reads the input array and allocates the
    one it returns, leaves the input array as it was. *)
Theorem filterLastYears_keeps_latest (data : list DailyRecord) (n : number) :
  (∃ d, d ∈ data ∧ date d ≠ InvalidDate) →
  ge n (ofZ 1) = true →
  filterLastYears data n ≠ []
  ∧ (∀ m d, greatest_year data m → d ∈ data → year_of d = ofZ m →
            d ∈ filterLastYears data n)
  ∧ filterLastYears data n `sublist_of` data
  ∧ ∀ (σ : store) a, σ !! a = Some data →
      ∃ r σ', filterLastYears_call a n σ = Some (r, σ')
              ∧ σ' !! r = Some (filterLastYears data n)
              ∧ σ' !! a = Some data.
Proof.
  intros Hvalid (q & -> & Hq)%ge_one_inv.
  assert (∀ m d, greatest_year data m → d ∈ data → year_of d = ofZ m →
                 d ∈ filterLastYears data (Num q)) as Hkeep.
  { intros m d Hmax Hd Hy.
    unfold filterLastYears. rewrite (d3_max_greatest_year _ _ Hmax).
    cbn [ToNumber]. apply list_elem_of_filter. split; [|done].
    rewrite Hy. cbn. apply bool_decide_spec. qc_simpl. lra. }
  split_and!; [|done|apply filterLastYears_sublist|].
  - destruct (greatest_year_exists data Hvalid) as [m Hm].
    destruct Hm as [(d & Hd & Hy) Hle] eqn:E. clear E.
    intros Hnil. specialize (Hkeep m d Hm Hd Hy). rewrite Hnil in Hkeep.
    by apply elem_of_nil in Hkeep.
  - intros σ a Ha.
    destruct (filterLastYears_call_spec a (Num q) σ data Ha) as (r & σ' & Hc & Hr & Hne & Hfr).
    exists r, σ'. split_and!; [done|done|]. by rewrite Hfr.
Qed.

(** ** The window against the N greatest distinct years (claim C2) *)

Lemma year_of_year_Z d : year_of d = from_option ofZ NaN (year_Z d).
Proof. unfold year_of, year_Z. by destruct (date d). Qed.

Lemma elem_of_years_present data y :
  y ∈ years_present data ↔ ∃ d, d ∈ data ∧ year_of d = ofZ y.
Proof.
  unfold years_present. rewrite list_elem_of_omap.
  split; intros (d & Hd & Hy); exists d; (split; [done|]).
  - by rewrite year_of_year_Z, Hy.
  - rewrite year_of_year_Z in Hy. destruct (year_Z d) as [y'|]; cbn in Hy; [|done].
    unfold ofZ in Hy. f_equal. apply Z2Qc_inj. congruence.
Qed.

Lemma filter_none {A} (P : A → Prop) `{!∀ x, Decision (P x)} (l : list A) :
  (∀ x, x ∈ l → ¬ P x) → filter P l = [].
Proof.
  induction l as [|a l IH]; intros HP; [done|].
  rewrite filter_cons_False by (apply HP; by left).
  apply IH. intros x Hx. apply HP. by right.
Qed.

Lemma filter_ext_elem_of {A} (P Q : A → Prop)
    `{!∀ x, Decision (P x), !∀ x, Decision (Q x)} (l : list A) :
  (∀ x, x ∈ l → P x ↔ Q x) → filter P l = filter Q l.
Proof.
  induction l as [|a l IH]; intros HPQ; [done|].
  rewrite !filter_cons.
  rewrite IH by (intros x Hx; apply HPQ; by right).
  apply decide_ext, HPQ. by left.
Qed.

Lemma elem_of_take_sorted (l : list Z) :
  StronglySorted year_desc l → NoDup l →
  ∀ (N : nat) (y : Z),
    y ∈ take N l ↔ y ∈ l ∧ (length (filter (λ z, (y < z)%Z) l) < N)%nat.
Proof.
  induction 1 as [|x l Hsorted IH Hx]; intros Hnd N y.
  - rewrite take_nil. split; [by intros ?%elem_of_nil|by intros [?%elem_of_nil _]].
  - apply NoDup_cons in Hnd as [Hxl Hnd]. rewrite Forall_forall in Hx.
    destruct N as [|N]; [cbn; split; [by intros ?%elem_of_nil|intros [_ ?]; lia]|].
    cbn [take]. rewrite !elem_of_cons, filter_cons.
    destruct (decide (y = x)) as [->|Hne].
    + rewrite decide_False by lia.
      replace (filter (λ z, x < z) l) with (@nil Z); [cbn; split; [intros _; split; [by left|lia]|by left]|].
      symmetry. apply filter_none. intros z Hz. specialize (Hx z Hz). unfold year_desc in Hx. lia.
    + destruct (decide (y ∈ l)) as [Hyl|Hyl].
      * specialize (Hx y Hyl). unfold year_desc in Hx. rewrite decide_True by lia. cbn [length].
        rewrite (IH Hnd N y). split; [intros [?|[? ?]]; [done|split; [by right|lia]]|].
        intros [_ ?]. right. split; [done|lia].
      * split; [intros [?|Hin]; [done|]|intros [[?|?] _]; done].
        apply (IH Hnd) in Hin as [? _]. done.
Qed.

Lemma elem_of_top_years (N : nat) (ys : list Z) (y : Z) :
  y ∈ top_years N ys
  ↔ y ∈ ys ∧ (length (filter (λ z, (y < z)%Z) (remove_dups ys)) < N)%nat.
Proof.
  unfold top_years.
  assert (Transitive year_desc) by (intros a b c; unfold year_desc; lia).
  assert (Total year_desc) by (intros a b; unfold year_desc; lia).
  pose proof (merge_sort_Permutation year_desc (remove_dups ys)) as Hperm.
  rewrite elem_of_take_sorted.
  - by rewrite Hperm, elem_of_remove_dups.
  - by apply StronglySorted_merge_sort.
  - rewrite Hperm. apply NoDup_remove_dups.
Qed.

Lemma length_NoDup_range (l : list Z) (a b : Z) :
  NoDup l → (∀ x, x ∈ l → a < x ≤ b) → (length l ≤ Z.to_nat (b - a))%nat.
Proof.
  intros Hnd Hr. rewrite <-(length_seqZ (a + 1) (b - a)).
  apply submseteq_length, NoDup_submseteq; [done|].
  intros x Hx%Hr. apply elem_of_seqZ. lia.
Qed.

Lemma length_covers_range (l : list Z) (a b : Z) :
  (∀ x, a < x ≤ b → x ∈ l) → (Z.to_nat (b - a) ≤ length l)%nat.
Proof.
  intros Hr. rewrite <-(length_seqZ (a + 1) (b - a)).
  apply submseteq_length, NoDup_submseteq; [apply NoDup_seqZ|].
  intros x Hx%elem_of_seqZ. apply Hr. lia.
Qed.

Lemma gt_window_Z (y m : Z) (N : nat) :
  gt (ofZ y) (sub (ofZ m) (ofZ (Z.of_nat N))) ↔ m - Z.of_nat N < y.
Proof.
  unfold gt, lt, sub, lift2, ofZ.
  rewrite <-Z2Qc_inj_sub.
  split.
  - intros H%bool_decide_unpack. by apply Z2Qc_inj_lt in H.
  - intros H. apply bool_decide_pack. by apply Z2Qc_inj_lt in H.
Qed.

Section window_vs_top.
Context (data : list DailyRecord) (N : nat) (m : Z).
Context (Hmax : greatest_year data m).

Let ys := years_present data.

Lemma greatest_year_present : m ∈ ys.
Proof. apply elem_of_years_present. by destruct Hmax. Qed.

Lemma years_present_le y : y ∈ ys → y ≤ m.
Proof.
  intros (d & Hd & Hy)%elem_of_years_present. destruct Hmax as [_ Hle]. eauto.
Qed.

Lemma window_in_top y :
  y ∈ ys → m - Z.of_nat N < y → y ∈ top_years N ys.
Proof.
  intros Hy Hw. apply elem_of_top_years. split; [done|].
  eapply Nat.le_lt_trans.
  - apply (length_NoDup_range _ y m).
    + apply NoDup_filter, NoDup_remove_dups.
    + intros z [Hz Hin]%list_elem_of_filter.
      rewrite elem_of_remove_dups in Hin.
      split; [done|by apply years_present_le].
  - pose proof (years_present_le y Hy). lia.
Qed.

Lemma top_in_window y :
  consecutive_years ys → y ∈ top_years N ys → m - Z.of_nat N < y.
Proof.
  intros Hcons [Hy Hcount]%elem_of_top_years.
  pose proof (years_present_le y Hy).
  assert (Z.to_nat (m - y) ≤ length (filter (λ z, (y < z)%Z) (remove_dups ys)))%nat.
  { apply length_covers_range. intros z Hz.
    apply list_elem_of_filter. split; [lia|]. apply elem_of_remove_dups.
    apply (Hcons y m); [done|apply greatest_year_present|lia]. }
  lia.
Qed.
End window_vs_top.

Lemma filterLastYears_pred (data : list DailyRecord) (N : nat) d :
  d ∈ data →
  (gt (year_of d) (sub (ToNumber (d3_max data (λ d, Some (year_of d))))
                       (ofZ (Z.of_nat N))) → year_in_top N data d)
  ∧ (consecutive_years (years_present data) → year_in_top N data d →
     gt (year_of d) (sub (ToNumber (d3_max data (λ d, Some (year_of d))))
                         (ofZ (Z.of_nat N)))).
Proof.
  intros Hd. unfold year_in_top. rewrite year_of_year_Z.
  destruct (year_Z d) as [y|] eqn:Hy; cbn [from_option];
    [|split; [unfold gt, lt; by destruct (sub _ _)|by intros _ ?]].
  assert (y ∈ years_present data) as Hin.
  { apply elem_of_years_present. exists d. by rewrite year_of_year_Z, Hy. }
  destruct (greatest_year_exists data) as [m Hm].
  { exists d. split; [done|]. unfold year_Z in Hy. by destruct (date d). }
  rewrite (d3_max_greatest_year _ _ Hm). cbn [ToNumber].
  rewrite gt_window_Z. split.
  - intros Hw. apply bool_decide_pack. by apply (window_in_top data N m).
  - intros Hcons Ht%bool_decide_unpack. by apply (top_in_window data N m).
Qed.

(** Claim C2 fails as stated: with rows of 2018 and 2020 only and N = 2,
    the two greatest distinct years are 2018 and 2020, but the filter
    keeps [year > 2020 - 2], the row of 2020 alone. *)
Lemma filterLastYears_gap_counterexample :
  let data := [mkDaily (LocalDate 2018 Jan 1) (ofZ 18) (ofZ 12);
               mkDaily (LocalDate 2020 Jan 1) (ofZ 20) (ofZ 14)] in
  filterLastYears data (ofZ 2) = [mkDaily (LocalDate 2020 Jan 1) (ofZ 20) (ofZ 14)]
  ∧ keep_top_years data 2 = data
  ∧ filterLastYears data (ofZ 2) ≠ keep_top_years data 2.
Proof. split_and!; [by vm_compute|by vm_compute|by vm_compute]. Qed.

(** Claim C2, amended.  [filterLastYears data N] retains only rows whose
    year is among the [N] greatest distinct year values present in [data]
    (derived from the data itself), and it retains exactly those rows
    whenever no calendar year is missing between two years of the data. *)
Theorem filterLastYears_top_years (data : list DailyRecord) (N : nat) :
  (∀ d, d ∈ filterLastYears data (ofZ (Z.of_nat N)) → d ∈ keep_top_years data N)
  ∧ (consecutive_years (years_present data) →
     filterLastYears data (ofZ (Z.of_nat N)) = keep_top_years data N).
Proof.
  split.
  - intros d [Hp Hd]%list_elem_of_filter.
    apply list_elem_of_filter. split; [|done].
    by apply (filterLastYears_pred data N d Hd).
  - intros Hcons. apply filter_ext_elem_of. intros d Hd.
    destruct (filterLastYears_pred data N d Hd) as [H1 H2]. split; auto.
Qed.

(** ** [d3.group] *)

Section group_by.
Context {A : Type} (keyof : A → number).

Lemma group_get_push key (value : A) k groups :
  group_get k (group_push key value groups)
  = if decide (key = k)
    then Some (default [] (group_get key groups) ++ [value])
    else group_get k groups.
Proof.
  induction groups as [|[k0 g0] groups IH]; cbn.
  - repeat case_decide; naive_solver.
  - destruct (decide (k0 = key)) as [->|Hne]; cbn.
    + repeat case_decide; naive_solver.
    + rewrite IH. repeat case_decide; naive_solver.
Qed.

Lemma group_get_None key (groups : list (number * list A)) :
  group_get key groups = None ↔ key ∉ groups.*1.
Proof.
  induction groups as [|[k0 g0] groups IH]; cbn.
  - split; [intros _ ?%elem_of_nil; done|done].
  - rewrite not_elem_of_cons. case_decide; naive_solver.
Qed.

Lemma group_push_keys key value (groups : list (number * list A)) :
  (group_push key value groups).*1
  = if decide (key ∈ groups.*1) then groups.*1 else groups.*1 ++ [key].
Proof.
  induction groups as [|[k0 g0] groups IH]; cbn; [by rewrite decide_False by apply not_elem_of_nil|].
  destruct (decide (k0 = key)) as [->|Hne]; cbn.
  - by rewrite decide_True by left.
  - rewrite IH. destruct (decide (key ∈ groups.*1)).
    + by rewrite decide_True by (by right).
    + rewrite decide_False; [done|]. rewrite not_elem_of_cons. naive_solver.
Qed.

Lemma elem_of_group_get (groups : list (number * list A)) k g :
  NoDup groups.*1 → (k, g) ∈ groups ↔ group_get k groups = Some g.
Proof.
  induction groups as [|[k0 g0] groups IH]; cbn; intros Hnd.
  - split; [by intros ?%elem_of_nil|done].
  - apply NoDup_cons in Hnd as [Hk0 Hnd]. rewrite elem_of_cons, IH by done.
    case_decide as Hk; subst.
    + split; [intros [[= ->]|Hg]; [done|]|naive_solver].
      apply group_get_None in Hk0. congruence.
    + naive_solver.
Qed.

Lemma group_by_snoc values value :
  group_by keyof (values ++ [value])
  = group_push (keyof value) value (group_by keyof values).
Proof. unfold group_by. by rewrite fold_left_app. Qed.

Lemma group_by_NoDup values : NoDup (group_by keyof values).*1.
Proof.
  induction values as [|value values IH] using rev_ind; [constructor|].
  rewrite group_by_snoc, group_push_keys. case_decide; [done|].
  apply NoDup_app. split_and!; [done| |apply NoDup_singleton].
  by intros k Hk ->%list_elem_of_singleton.
Qed.

Lemma group_by_get values key :
  group_get key (group_by keyof values)
  = match filter (λ v, keyof v = key) values with
    | [] => None
    | group => Some group
    end.
Proof.
  induction values as [|value values IH] using rev_ind; [done|].
  rewrite group_by_snoc, group_get_push, filter_app, filter_cons, filter_nil.
  destruct (decide (keyof value = key)) as [<-|Hne].
  - rewrite IH. by destruct (filter _ values).
  - by rewrite IH, app_nil_r.
Qed.

Lemma elem_of_group_by values k g :
  (k, g) ∈ group_by keyof values
  ↔ g = filter (λ v, keyof v = k) values ∧ g ≠ [].
Proof.
  rewrite elem_of_group_get by apply group_by_NoDup. rewrite group_by_get.
  destruct (filter _ values); naive_solver.
Qed.
End group_by.

(** ** [d3.mean] *)

Lemma Qc_sum_cons q qs : Qc_sum (q :: qs) = (q + Qc_sum qs)%Qc.
Proof. reflexivity. Qed.

Lemma ge_refl x : ge x x = negb (isNaN x).
Proof. destruct x; [done|]. by rewrite ge_refl_Num. Qed.

Lemma numerics_cons {A : Type} (valueof : A → option number) a values :
  numerics (a :: values) valueof
  = match numeric (valueof a) with
    | Some q => q :: numerics values valueof
    | None => numerics values valueof
    end.
Proof. reflexivity. Qed.

Lemma d3_mean_fold {A : Type} (valueof : A → number) (values : list A) :
  ∀ c s : Qc,
    fold_left (λ acc a, d3_mean_step acc (valueof a)) values (Num c, Num s)
    = (Num (c + Qc_of_Z (Z.of_nat (length (numerics values (Some ∘ valueof)))))%Qc,
       Num (s + Qc_sum (numerics values (Some ∘ valueof)))%Qc).
Proof.
  induction values as [|a values IH]; intros c s.
  - cbn [fold_left numerics omap list_omap length Qc_sum foldr].
    change (Z.of_nat 0) with 0. rewrite Z2Qc_inj_0. f_equal; f_equal; ring.
  - cbn [fold_left]. rewrite numerics_cons.
    unfold d3_mean_step at 2. rewrite ge_refl.
    change ((Some ∘ valueof) a) with (Some (valueof a)).
    destruct (valueof a) as [|x]; cbn [isNaN negb numeric]; [apply IH|].
    cbn [add lift2 ofZ]. rewrite IH, Qc_sum_cons. cbn [length].
    rewrite Nat2Z.inj_succ, <-Z.add_1_l, Z2Qc_inj_add, Z2Qc_inj_1.
    f_equal; f_equal; ring.
Qed.

Lemma numerics_fmap {A : Type} (valueof : A → number) (values : list A) :
  numerics values (Some ∘ valueof)
  = omap (λ x, numeric (Some x)) (valueof <$> values).
Proof.
  unfold numerics. induction values as [|a values IH]; [done|].
  cbn [fmap list_fmap omap list_omap]. by rewrite <-IH.
Qed.

Lemma Qc_of_nat_ne_0 (n : nat) : Qc_of_Z (Z.of_nat (S n)) ≠ 0%Qc.
Proof. rewrite <-Z2Qc_inj_0. intros ?%Z2Qc_inj. lia. Qed.

Lemma d3_mean_spec {A : Type} (valueof : A → number) (values : list A) :
  d3_mean values valueof = mean_of_numeric (valueof <$> values).
Proof.
  unfold d3_mean, mean_of_numeric, ofZ. rewrite d3_mean_fold.
  rewrite <-numerics_fmap.
  rewrite Z2Qc_inj_0, !Qcplus_0_l.
  destruct (numerics values (Some ∘ valueof)) as [|q qs] eqn:Hqs.
  - cbn [length Qc_sum foldr]. change (Z.of_nat 0) with 0.
    rewrite Z2Qc_inj_0. unfold truthy.
    by rewrite bool_decide_eq_false_2 by (intros H; by apply H).
  - unfold truthy. rewrite bool_decide_eq_true_2 by apply Qc_of_nat_ne_0.
    unfold div. rewrite decide_False by apply Qc_of_nat_ne_0. done.
Qed.

Lemma all_numbers_inv (xs : list number) :
  Forall (λ x, x ≠ NaN) xs → ∃ qs, xs = Num <$> qs.
Proof.
  induction 1 as [|x xs Hx _ [qs ->]]; [by exists []|].
  destruct x as [|q]; [done|]. by exists (q :: qs).
Qed.

Lemma omap_numeric_Num (qs : list Qc) :
  omap (λ x, numeric (Some x)) (Num <$> qs) = qs.
Proof.
  induction qs as [|q qs IH]; [done|].
  cbn [fmap list_fmap omap list_omap]. by rewrite IH.
Qed.

Lemma foldr_add_Num (qs : list Qc) :
  foldr add (ofZ 0) (Num <$> qs) = Num (Qc_sum qs).
Proof.
  induction qs as [|q qs IH]; [unfold ofZ; by rewrite Z2Qc_inj_0|].
  cbn [fmap list_fmap foldr]. by rewrite IH.
Qed.

Lemma mean_of_numeric_all_numbers (xs : list number) :
  xs ≠ [] → Forall (λ x, x ≠ NaN) xs →
  mean_of_numeric xs = Some (arithmetic_mean xs).
Proof.
  intros Hne Hall. unfold mean_of_numeric, arithmetic_mean.
  destruct (all_numbers_inv xs Hall) as [qs ->].
  rewrite omap_numeric_Num, foldr_add_Num, length_fmap. destruct qs as [|q qs]; [done|].
  unfold div, ofZ. by rewrite decide_False by apply Qc_of_nat_ne_0.
Qed.

(** ** The aggregator (claim C1) *)

Lemma elem_of_aggregate data c :
  c ∈ aggregateByYearMonth data
  ↔ days c = rows_of data (year c) (month c)
    ∧ days c ≠ []
    ∧ avgMax c = d3_mean (days c) max
    ∧ avgMin c = d3_mean (days c) min.
Proof.
  unfold aggregateByYearMonth, d3_group, rows_of.
  rewrite list_elem_of_bind. setoid_rewrite list_elem_of_bind.
  setoid_rewrite list_elem_of_singleton. setoid_rewrite list_elem_of_fmap.
  split.
  - intros ([y ms] & ([m ds] & -> & Hm) & ([y' g] & [= -> ->] & Hy)).
    cbn in *. apply elem_of_group_by in Hy as [-> Hg].
    apply elem_of_group_by in Hm as [-> Hds].
    rewrite list_filter_filter in Hds |- *. split_and!; try done.
    apply list_filter_iff. intros d. unfold year_of, month_of. naive_solver.
  - intros (Hdays & Hne & Hmax & Hmin).
    exists (year c, group_by (λ d, getMonth (date d))
                      (filter (λ d, getFullYear (date d) = year c) data)).
    split.
    + exists (month c, days c). cbn. split.
      * destruct c; cbn in *; by subst.
      * apply elem_of_group_by. rewrite list_filter_filter. split; [|done].
        rewrite Hdays. apply list_filter_iff. intros d. unfold year_of, month_of. naive_solver.
    + exists (year c, filter (λ d, getFullYear (date d) = year c) data).
      split; [done|]. apply elem_of_group_by. split; [done|].
      intros Hnil. apply Hne. rewrite Hdays.
      apply filter_none. intros d Hd [Hy _].
      exact (filter_nil_not_elem_of _ _ d Hnil Hy Hd).
Qed.

Lemma elem_of_d3_group {A : Type} (values : list A) (key1 key2 : A → number) x :
  x ∈ d3_group values key1 key2
  ↔ x.2 = group_by key2 (filter (λ v, key1 v = x.1) values)
    ∧ filter (λ v, key1 v = x.1) values ≠ [].
Proof.
  unfold d3_group. rewrite list_elem_of_fmap. split.
  - intros ([k g] & -> & [-> Hg]%elem_of_group_by). done.
  - intros [Hx Hne]. exists (x.1, filter (λ v, key1 v = x.1) values).
    split; [destruct x; cbn in *; by subst|]. by apply elem_of_group_by.
Qed.

Lemma d3_group_NoDup {A : Type} (values : list A) (key1 key2 : A → number) :
  NoDup (d3_group values key1 key2).
Proof.
  apply (NoDup_fmap_1 fst). unfold d3_group. rewrite <-list_fmap_compose.
  apply (group_by_NoDup key1 values).
Qed.

Lemma aggregate_NoDup data : NoDup (aggregateByYearMonth data).
Proof.
  unfold aggregateByYearMonth. apply NoDup_bind.
  - intros [y1 ms1] [y2 ms2] c [Hms1 _]%elem_of_d3_group [Hms2 _]%elem_of_d3_group.
    intros (me1 & ->%list_elem_of_singleton & _)%list_elem_of_bind.
    intros (me2 & [= -> _ _ _ _]%list_elem_of_singleton & _)%list_elem_of_bind.
    cbn in *. by subst.
  - intros [y ms] [Hms _]%elem_of_d3_group. cbn in *. subst ms.
    apply NoDup_bind.
    + intros [m1 g1] [m2 g2] c _ _ ->%list_elem_of_singleton.
      by intros [= -> _ _ ->]%list_elem_of_singleton.
    + intros. apply NoDup_singleton.
    + apply (NoDup_fmap_1 fst), group_by_NoDup.
  - apply d3_group_NoDup.
Qed.

Lemma aggregate_key_inj data c1 c2 :
  c1 ∈ aggregateByYearMonth data → c2 ∈ aggregateByYearMonth data →
  cell_key c1 = cell_key c2 → c1 = c2.
Proof.
  intros (Hd1 & _ & Hmax1 & Hmin1)%elem_of_aggregate.
  intros (Hd2 & _ & Hmax2 & Hmin2)%elem_of_aggregate [= Hy Hm].
  destruct c1, c2; cbn in *. subst. done.
Qed.

Lemma aggregate_keys_NoDup data : NoDup (cell_key <$> aggregateByYearMonth data).
Proof.
  apply NoDup_fmap_2_strong; [|apply aggregate_NoDup].
  intros c1 c2. apply aggregate_key_inj.
Qed.

Lemma aggregate_key_populated data y m :
  (∃ c, c ∈ aggregateByYearMonth data ∧ year c = y ∧ month c = m)
  ↔ ∃ d, d ∈ data ∧ year_of d = y ∧ month_of d = m.
Proof.
  split.
  - intros (c & (Hd & Hne & _)%elem_of_aggregate & <- & <-).
    destruct (days c) as [|d ds] eqn:Hdays; [done|].
    assert (d ∈ rows_of data (year c) (month c)) as Hin by (rewrite <-Hd; by left).
    apply list_elem_of_filter in Hin as [[? ?] ?]. eauto.
  - intros (d & Hd & Hy & Hm).
    set (ds := rows_of data y m).
    exists (mkCell y m (d3_mean ds max) (d3_mean ds min) ds).
    split; [|done]. apply elem_of_aggregate. cbn. split_and!; try done.
    intros Hnil. apply (filter_nil_not_elem_of _ _ d Hnil); done.
Qed.

(** Claim C1 fails as stated: the cell of January 2020 holds both rows,
    the arithmetic mean of their [max] fields, one of which is [NaN], is
    [NaN], and [avgMax] is 30, the mean of the other row alone. *)
Lemma aggregate_skips_NaN :
  let data := [mkDaily (LocalDate 2020 Jan 1) NaN (ofZ 14);
               mkDaily (LocalDate 2020 Jan 2) (ofZ 30) (ofZ 16)] in
  aggregateByYearMonth data
  = [mkCell (ofZ 2020) (ofZ 0) (Some (ofZ 30)) (Some (ofZ 15)) data]
  ∧ rows_of data (ofZ 2020) (ofZ 0) = data
  ∧ arithmetic_mean (max <$> data) = NaN.
Proof. split_and!; by_compute. Qed.

(** Claim C1, amended.  For every input sequence the Aggregator produces
    exactly one Cell per (year, month) pair that has at least one row,
    and none for a pair with no rows; the days of a Cell are exactly the
    input rows whose date has its (year, month); its [avgMax] ([avgMin])
    is the arithmetic mean of the [max] ([min]) field over those of its
    rows where the field is a number, and is undefined when there is no
    such row.  When no row of the Cell has [NaN] in the field, the average
    is the arithmetic mean over exactly the rows of the Cell. *)
Theorem aggregate_means (data : list DailyRecord) :
  let cells := aggregateByYearMonth data in
  NoDup (cell_key <$> cells)
  ∧ (∀ y m, (∃ c, c ∈ cells ∧ year c = y ∧ month c = m)
            ↔ (∃ d, d ∈ data ∧ year_of d = y ∧ month_of d = m))
  ∧ ∀ c, c ∈ cells →
      days c = rows_of data (year c) (month c)
      ∧ avgMax c = mean_of_numeric (max <$> days c)
      ∧ avgMin c = mean_of_numeric (min <$> days c)
      ∧ (Forall (λ d, max d ≠ NaN) (days c) →
         avgMax c = Some (arithmetic_mean (max <$> days c)))
      ∧ (Forall (λ d, min d ≠ NaN) (days c) →
         avgMin c = Some (arithmetic_mean (min <$> days c))).
Proof.
  cbn zeta. split_and!.
  - apply aggregate_keys_NoDup.
  - apply aggregate_key_populated.
  - intros c (Hd & Hne & Hmax & Hmin)%elem_of_aggregate.
    rewrite d3_mean_spec in Hmax, Hmin. split_and!; try done.
    + intros Hall. rewrite Hmax. apply mean_of_numeric_all_numbers.
      * by destruct (days c).
      * by apply Forall_fmap.
    + intros Hall. rewrite Hmin. apply mean_of_numeric_all_numbers.
      * by destruct (days c).
      * by apply Forall_fmap.
Qed.

Lemma aggregate_means_witness :
  let data := [mkDaily (LocalDate 2020 Jan 1) (ofZ 20) (ofZ 14);
               mkDaily (LocalDate 2020 Jan 2) (ofZ 30) (ofZ 16)] in
  let c := mkCell (ofZ 2020) (ofZ 0) (Some (ofZ 25)) (Some (ofZ 15)) data in
  c ∈ aggregateByYearMonth data
  ∧ Forall (λ d, max d ≠ NaN) (days c)
  ∧ avgMax c = Some (arithmetic_mean (max <$> days c)).
Proof.
  cbn zeta.
  set (data := [mkDaily (LocalDate 2020 Jan 1) (ofZ 20) (ofZ 14);
               mkDaily (LocalDate 2020 Jan 2) (ofZ 30) (ofZ 16)]).
  set (c := mkCell (ofZ 2020) (ofZ 0) (Some (ofZ 25)) (Some (ofZ 15)) data).
  assert (c ∈ aggregateByYearMonth data) as Hc by by_compute.
  assert (Forall (λ d, max d ≠ NaN) (days c)) as Hall by (repeat constructor; done).
  split_and!; [done|done|].
  exact (proj1 (proj2 (proj2 (proj2 (proj2 (proj2 (aggregate_means data)) c Hc)))) Hall).
Defined.

(** ** Witnesses for the year filter *)

Lemma filterLastYears_window_witness :
  let data := [mkDaily (LocalDate 2009 Dec 31) (ofZ 18) (ofZ 12);
               mkDaily (LocalDate 2010 Jan 1) (ofZ 19) (ofZ 13);
               mkDaily (LocalDate 2020 Jan 1) (ofZ 20) (ofZ 14)] in
  data ≠ [] ∧ greatest_year data 2020
  ∧ filterLastYears data (ofZ 10)
    = filter (λ d, gt (year_of d) (sub (ofZ 2020) (ofZ 10))) data.
Proof.
  cbn zeta.
  set (data := [mkDaily (LocalDate 2009 Dec 31) (ofZ 18) (ofZ 12);
               mkDaily (LocalDate 2010 Jan 1) (ofZ 19) (ofZ 13);
               mkDaily (LocalDate 2020 Jan 1) (ofZ 20) (ofZ 14)]).
  assert (data ≠ []) as Hne by done.
  assert (greatest_year data 2020) as Hmax.
  { split.
    - exists (mkDaily (LocalDate 2020 Jan 1) (ofZ 20) (ofZ 14)).
      split; [by_compute|reflexivity].
    - intros d y Hd Hy. unfold data in Hd.
      repeat (apply elem_of_cons in Hd as [->|Hd]);
        [..|by apply elem_of_nil in Hd];
        apply (f_equal (λ x, match x with Num q => this q | NaN => 0%Q end)) in Hy;
        cbn in Hy; injection Hy as <-; lia. }
  split_and!; [done|done|].
  exact (filterLastYears_window data (ofZ 10) 2020 Hne Hmax).
Defined.

Lemma filterLastYears_keeps_latest_witness :
  let data := [mkDaily (LocalDate 2019 Dec 31) (ofZ 18) (ofZ 12);
               mkDaily InvalidDate (ofZ 19) (ofZ 13);
               mkDaily (LocalDate 2020 Jan 1) (ofZ 20) (ofZ 14)] in
  (∃ d, d ∈ data ∧ date d ≠ InvalidDate)
  ∧ ge (ofZ 1) (ofZ 1) = true
  ∧ filterLastYears data (ofZ 1) ≠ [].
Proof.
  cbn zeta.
  set (data := [mkDaily (LocalDate 2019 Dec 31) (ofZ 18) (ofZ 12);
               mkDaily InvalidDate (ofZ 19) (ofZ 13);
               mkDaily (LocalDate 2020 Jan 1) (ofZ 20) (ofZ 14)]).
  assert (∃ d, d ∈ data ∧ date d ≠ InvalidDate) as Hvalid.
  { exists (mkDaily (LocalDate 2020 Jan 1) (ofZ 20) (ofZ 14)). split; [by_compute|done]. }
  assert (ge (ofZ 1) (ofZ 1) = true) as Hn by (by vm_compute).
  split_and!; [done|done|].
  exact (proj1 (filterLastYears_keeps_latest data (ofZ 1) Hvalid Hn)).
Defined.

Lemma filterLastYears_top_years_witness :
  let data := [mkDaily (LocalDate 2019 Dec 31) (ofZ 18) (ofZ 12);
               mkDaily (LocalDate 2020 Jan 1) (ofZ 20) (ofZ 14);
               mkDaily (LocalDate 2021 Jan 1) (ofZ 20) (ofZ 14)] in
  consecutive_years (years_present data)
  ∧ filterLastYears data (ofZ (Z.of_nat 2)) = keep_top_years data 2.
Proof.
  cbn zeta.
  set (data := [mkDaily (LocalDate 2019 Dec 31) (ofZ 18) (ofZ 12);
               mkDaily (LocalDate 2020 Jan 1) (ofZ 20) (ofZ 14);
               mkDaily (LocalDate 2021 Jan 1) (ofZ 20) (ofZ 14)]).
  assert (consecutive_years (years_present data)) as Hcons.
  { change (years_present data) with [2019; 2020; 2021].
    intros y1 y2 y H1 H2 Hy.
    assert (2019 ≤ y1) by (repeat (apply elem_of_cons in H1 as [->|H1]); [lia..|by apply elem_of_nil in H1]).
    assert (y2 ≤ 2021) by (repeat (apply elem_of_cons in H2 as [->|H2]); [lia..|by apply elem_of_nil in H2]).
    assert (y = 2019 ∨ y = 2020 ∨ y = 2021) as [-> | [-> | ->] ] by lia; by_compute. }
  split; [done|].
  exact (proj2 (filterLastYears_top_years data 2) Hcons).
Defined.

(** ** The colour scale (claim C5) *)






Lemma endpoints_are_scheme_ends :
  rgb_formatRgb <$> head scheme_RdYlBu_11 = Some red_end
  ∧ rgb_formatRgb <$> last scheme_RdYlBu_11 = Some blue_end.
Proof. split; by vm_compute. Qed.







(** ** The mode toggle (claim C6) *)

Lemma on_click_fills p : fills_show_mode (on_click p).
Proof.
  unfold fills_show_mode, on_click. cbn [rects mode].
  apply Forall_fmap, Forall_forall. intros rect _. cbn.
  by destruct (mode p).
Qed.

Lemma on_click_label p : label_shows_mode (on_click p).
Proof. done. Qed.

Lemma drawMatrix_fills cells years p :
  mode p = ModeMax → fills_show_mode (drawMatrix cells years p).
Proof.
  intros Hm. unfold fills_show_mode, drawMatrix. cbn [rects mode].
  rewrite Hm. apply Forall_fmap, Forall_forall. by intros d _.
Qed.

Lemma handle_fills p e : fills_show_mode p → fills_show_mode (handle p e).
Proof.
  intros Hp. destruct e as [|i pageX pageY|]; cbn [handle].
  - apply on_click_fills.
  - unfold on_mouseover. destruct (rects p !! i) as [rect|]; [|done].
    by destruct (match mode p with ModeMax => _ | ModeMin => _ end).
  - done.
Qed.

Lemma handle_label p e :
  label_shows_mode p ∨ e = Click → label_shows_mode (handle p e).
Proof.
  destruct e as [|i pageX pageY|]; cbn [handle]; intros [Hp|?]; try done.
  unfold on_mouseover. destruct (rects p !! i) as [rect|]; [|done].
  by destruct (match mode p with ModeMax => _ | ModeMin => _ end).
Qed.

Lemma run_snoc events e p : run (events ++ [e]) p = handle (run events p) e.
Proof. unfold run. by rewrite fold_left_app. Qed.

Lemma run_fills events p : fills_show_mode p → fills_show_mode (run events p).
Proof.
  intros Hp. induction events as [|e events IH] using rev_ind; [done|].
  rewrite run_snoc. by apply handle_fills.
Qed.

Lemma run_label events p :
  label_shows_mode p ∨ Click ∈ events → label_shows_mode (run events p).
Proof.
  induction events as [|e events IH] using rev_ind.
  - intros [?|?%elem_of_nil]; done.
  - rewrite run_snoc. intros Hp. apply handle_label.
    destruct Hp as [Hp|[Hin| ->%list_elem_of_singleton]%elem_of_app]; auto.
Qed.

Lemma on_click_twice p :
  fills_show_mode p → label_shows_mode p → on_click (on_click p) = p.
Proof.
  intros Hf Hl. destruct p as [m rs sp lbl tip].
  unfold fills_show_mode, label_shows_mode in *. cbn in Hf, Hl.
  unfold on_click. cbn [mode rects sparklines mode_label tooltip]. f_equal.
  - by destruct m.
  - rewrite <-list_fmap_compose. rewrite <-(list_fmap_id rs) at 2.
    apply Forall_fmap_ext, Forall_forall. intros rect Hrect. cbn.
    rewrite Forall_forall in Hf. specialize (Hf rect Hrect).
    destruct rect; cbn in *. rewrite Hf. unfold colorOf. by destruct m.
  - rewrite Hl. by destruct m.
Qed.

Lemma on_click_twice_fills p :
  fills_show_mode p →
  mode (on_click (on_click p)) = mode p
  ∧ fill <$> rects (on_click (on_click p)) = fill <$> rects p.
Proof.
  intros Hf. split; [unfold on_click; cbn; by destruct (mode p)|].
  unfold on_click. cbn [mode rects]. rewrite <-!list_fmap_compose.
  apply Forall_fmap_ext. eapply Forall_impl; [exact Hf|].
  intros rect Hrect. cbn. rewrite Hrect. unfold colorOf. by destruct (mode p).
Qed.

Lemma handle_no_click p e :
  e ≠ Click → mode (handle p e) = mode p ∧ mode_label (handle p e) = mode_label p.
Proof.
  destruct e as [|i pageX pageY|]; [done| |done]. intros _. cbn [handle].
  unfold on_mouseover. destruct (rects p !! i) as [rect|]; [|done].
  by destruct (match mode p with ModeMax => _ | ModeMin => _ end).
Qed.

Lemma run_no_click events p :
  Click ∉ events →
  mode (run events p) = mode p ∧ mode_label (run events p) = mode_label p.
Proof.
  induction events as [|e events IH] using rev_ind; [done|].
  intros Hno. rewrite run_snoc.
  destruct (handle_no_click (run events p) e) as [-> ->].
  - intros ->. apply Hno, elem_of_app. right. by apply list_elem_of_singleton.
  - apply IH. intros Hin. apply Hno, elem_of_app. by left.
Qed.

Lemma on_click_twice_label p :
  mode_label (on_click (on_click p)) = mode_label p ↔ label_shows_mode p.
Proof.
  unfold label_shows_mode, on_click. cbn [mode mode_label].
  by destruct (mode p).
Qed.

(** Claim C6 fails as stated: the matrix is drawn into a document whose
    [#mode-label] is empty; two clicks later the label reads
    "Showing: Max Temp", not what it read before the first click. *)
Lemma toggle_twice_label_counterexample :
  let cells :=
    aggregateByYearMonth [mkDaily (LocalDate 2020 Jan 1) (ofZ 30) (ofZ 20)] in
  let tip := mkTooltip "none" (ofZ 0) (ofZ 0) "" in
  let p := drawMatrix cells [ofZ 2020] (blank_page "" tip) in
  mode_label p = ""
  ∧ mode_label (on_click (on_click p)) = "Showing: Max Temp"
  ∧ mode_label (on_click (on_click p)) ≠ mode_label p.
Proof. split_and!; [reflexivity|reflexivity|discriminate]. Qed.

(** Claim C6, amended.  On every page the program reaches (the matrix as
    drawn, then any sequence of clicks and hovers), two more clicks return
    the mode and the fill colour of every cell to what they were.  The
    mode label returns to what it read before the first click exactly
    when it then named the current mode, which is the case exactly when a
    click has already written it or the document's own label text is
    "Showing: Max Temp"; the whole page is then as before the two clicks.
    (The initial text of [#mode-label] is in the document, not in
    [main.js]: it is the parameter [label].) *)
Theorem toggle_twice (cells : list Cell) (years : list number)
    (label : string) (tip : Tooltip) (events : list Event) :
  let p := run events (drawMatrix cells years (blank_page label tip)) in
  mode (on_click (on_click p)) = mode p
  ∧ fill <$> rects (on_click (on_click p)) = fill <$> rects p
  ∧ (mode_label (on_click (on_click p)) = mode_label p ↔ label_shows_mode p)
  ∧ (label_shows_mode p ↔ Click ∈ events ∨ label = "Showing: Max Temp")
  ∧ (label_shows_mode p → on_click (on_click p) = p).
Proof.
  cbn zeta.
  set (p0 := drawMatrix cells years (blank_page label tip)).
  assert (fills_show_mode (run events p0)) as Hf
    by (apply run_fills; by apply drawMatrix_fills).
  destruct (on_click_twice_fills _ Hf) as [Hm Hfill].
  split_and!; [done|done|apply on_click_twice_label| |by apply on_click_twice].
  split.
  - intros Hl. destruct (decide (Click ∈ events)) as [|Hno]; [by left|right].
    destruct (run_no_click events p0 Hno) as [Hmode Hlabel].
    unfold label_shows_mode in Hl. by rewrite Hmode, Hlabel in Hl.
  - intros [Hin| ->]; apply run_label; [by right|by left].
Qed.

Lemma toggle_twice_witness :
  let cells :=
    aggregateByYearMonth
      [mkDaily (LocalDate 2020 Jan 1) (ofZ 30) (ofZ 20);
       mkDaily (LocalDate 2020 Feb 1) (ofZ 31) (ofZ 21)] in
  let tip := mkTooltip "none" (ofZ 0) (ofZ 0) "" in
  let p := run [Click] (drawMatrix cells [ofZ 2020] (blank_page "" tip)) in
  label_shows_mode p
  ∧ mode_label (on_click (on_click p)) = mode_label p
  ∧ on_click (on_click p) = p.
Proof.
  cbn zeta.
  pose proof (toggle_twice
    (aggregateByYearMonth
      [mkDaily (LocalDate 2020 Jan 1) (ofZ 30) (ofZ 20);
       mkDaily (LocalDate 2020 Feb 1) (ofZ 31) (ofZ 21)])
    [ofZ 2020] "" (mkTooltip "none" (ofZ 0) (ofZ 0) "") [Click])
    as (_ & _ & Hlabel & _ & Hpage).
  cbn zeta in Hlabel, Hpage.
  assert (label_shows_mode
            (run [Click]
               (drawMatrix
                  (aggregateByYearMonth
                     [mkDaily (LocalDate 2020 Jan 1) (ofZ 30) (ofZ 20);
                      mkDaily (LocalDate 2020 Feb 1) (ofZ 31) (ofZ 21)])
                  [ofZ 2020] (blank_page "" (mkTooltip "none" (ofZ 0) (ofZ 0) "")))))
    as Hl by reflexivity.
  split_and!; [exact Hl|exact (proj2 Hlabel Hl)|exact (Hpage Hl)].
Defined.

(** ** Cells after aggregation (claim C8) *)

Lemma handle_datum p e : datum <$> rects (handle p e) = datum <$> rects p.
Proof.
  destruct e as [|i pageX pageY|]; cbn [handle].
  - unfold on_click. cbn [rects]. rewrite <-list_fmap_compose.
    by apply list_fmap_ext.
  - unfold on_mouseover. destruct (rects p !! i) as [rect|]; [|done].
    by destruct (match mode p with ModeMax => _ | ModeMin => _ end).
  - done.
Qed.

Lemma run_datum events p : datum <$> rects (run events p) = datum <$> rects p.
Proof.
  induction events as [|e events IH] using rev_ind; [done|].
  by rewrite run_snoc, handle_datum.
Qed.

Lemma drawMatrix_datum cells years p :
  datum <$> rects (drawMatrix cells years p) = cells.
Proof.
  unfold drawMatrix. cbn [rects]. rewrite <-list_fmap_compose.
  rewrite <-(list_fmap_id cells) at 2. by apply list_fmap_ext.
Qed.

(** Claim C8.  For every output of the Aggregator the (year, month)
    pairs of the Cells are pairwise distinct and every Cell has at least
    one day; and the Cells bound to the rectangles stay what the
    Aggregator produced through every sequence of clicks and hovers: no
    handler writes to a Cell. *)
Theorem cells_unique_nonempty_fixed (data : list DailyRecord) :
  let cells := aggregateByYearMonth data in
  NoDup (cell_key <$> cells)
  ∧ Forall (λ c, days c ≠ []) cells
  ∧ ∀ years label tip events,
      datum <$> rects (run events (drawMatrix cells years (blank_page label tip)))
      = cells.
Proof.
  cbn zeta. split_and!.
  - apply aggregate_keys_NoDup.
  - apply Forall_forall. by intros c (_ & Hne & _)%elem_of_aggregate.
  - intros. by rewrite run_datum, drawMatrix_datum.
Qed.

(** ** [d3.min] *)

Lemma d3_min_step_NaN acc : d3_min_step acc (Some NaN) = acc.
Proof. destruct acc as [[|m]|]; reflexivity. Qed.

Lemma d3_min_step_None x : d3_min_step None (Some (Num x)) = Some (Num x).
Proof. unfold d3_min_step. by rewrite ge_refl_Num. Qed.

Lemma d3_min_step_Some m x :
  d3_min_step (Some (Num m)) (Some (Num x))
  = if bool_decide (x < m)%Qc then Some (Num x) else Some (Num m).
Proof. unfold d3_min_step. cbn. by rewrite orb_false_r. Qed.

Lemma d3_min_fold_Some {A : Type} (valueof : A → option number) (values : list A) :
  ∀ m0 : Qc,
    ∃ m, fold_left (λ acc a, d3_min_step acc (valueof a)) values (Some (Num m0))
         = Some (Num m)
         ∧ (m = m0 ∨ m ∈ numerics values valueof)
         ∧ (m ≤ m0)%Qc
         ∧ (∀ q, q ∈ numerics values valueof → (m ≤ q)%Qc).
Proof.
  unfold numerics.
  induction values as [|a values IH]; intros m0; cbn [fold_left omap list_omap].
  - exists m0. split_and!; [done|by left|done|by intros ? ?%elem_of_nil].
  - destruct (valueof a) as [[|x]|] eqn:Ha; cbn [numeric].
    + rewrite d3_min_step_NaN. apply IH.
    + rewrite d3_min_step_Some. case_bool_decide as Hlt.
      * destruct (IH x) as (m & Hr & Hin & Hle & Hall).
        exists m. split_and!; [done| | |].
        -- right. destruct Hin as [->|Hin]; [left|right]; done.
        -- trans x; [done|by apply Qclt_le_weak].
        -- intros q [->|Hq]%elem_of_cons; [done|by apply Hall].
      * destruct (IH m0) as (m & Hr & Hin & Hle & Hall).
        exists m. split_and!; [done| |done|].
        -- destruct Hin as [->|Hin]; [by left|right; by right].
        -- intros q [->|Hq]%elem_of_cons; [|by apply Hall].
           trans m0; [done|by apply Qcle_ngt].
    + apply IH.
Qed.

Lemma d3_min_spec {A : Type} (valueof : A → option number) (values : list A) :
  (d3_min values valueof = None ∧ numerics values valueof = [])
  ∨ ∃ m, d3_min values valueof = Some (Num m)
         ∧ m ∈ numerics values valueof
         ∧ (∀ q, q ∈ numerics values valueof → (m ≤ q)%Qc).
Proof.
  unfold d3_min, numerics.
  induction values as [|a values IH]; cbn [fold_left omap list_omap]; [by left|].
  destruct (valueof a) as [[|x]|] eqn:Ha; cbn [numeric].
  - rewrite d3_min_step_NaN. apply IH.
  - rewrite d3_min_step_None. right.
    destruct (d3_min_fold_Some valueof values x) as (m & Hr & Hin & Hle & Hall).
    exists m. split_and!; [done| |].
    + destruct Hin as [->|Hin]; [left|right]; done.
    + intros q [->|Hq]%elem_of_cons; [done|by apply Hall].
  - apply IH.
Qed.

Lemma elem_of_numerics {A : Type} (valueof : A → option number) (values : list A) q :
  q ∈ numerics values valueof ↔ ∃ a, a ∈ values ∧ valueof a = Some (Num q).
Proof.
  unfold numerics. rewrite list_elem_of_omap.
  split; intros (a & Ha & Hq); exists a; (split; [done|]).
  - destruct (valueof a) as [[|x]|]; by simplify_eq/=.
  - by rewrite Hq.
Qed.

(** ** The shared y scale of the sparklines (claim C7) *)

Lemma tempMin_spec cells :
  match tempMin cells with
  | None => ∀ c d, c ∈ cells → d ∈ days c → min d = NaN
  | Some x => ∃ m, x = Num m ∧ global_min cells m
  end.
Proof.
  unfold tempMin.
  destruct (d3_min_spec (λ c, d3_min (days c) (λ d, Some (min d))) cells)
    as [[-> Hnil]|(m & -> & Hin & Hall)].
  - intros c d Hc Hd. destruct (min d) as [|q] eqn:Hq; [done|exfalso].
    destruct (d3_min_spec (λ d, Some (min d)) (days c)) as [[_ Hn]|(m & Hm & _ & _)].
    + assert (q ∈ numerics (days c) (λ d, Some (min d))) as Hin
        by (apply elem_of_numerics; exists d; by rewrite Hq).
      rewrite Hn in Hin. by apply elem_of_nil in Hin.
    + assert (m ∈ numerics cells (λ c, d3_min (days c) (λ d, Some (min d)))) as Hin
        by (apply elem_of_numerics; eauto).
      rewrite Hnil in Hin. by apply elem_of_nil in Hin.
  - exists m. split; [done|]. split.
    + apply elem_of_numerics in Hin as (c & Hc & Hm).
      destruct (d3_min_spec (λ d, Some (min d)) (days c)) as [[Hn _]|(m' & Hm' & Hin' & _)];
        [congruence|].
      assert (m' = m) as -> by congruence.
      apply elem_of_numerics in Hin' as (d & Hd & Hq). exists c, d. naive_solver.
    + intros c d q Hc Hd Hq.
      destruct (d3_min_spec (λ d, Some (min d)) (days c)) as [[_ Hn]|(m' & Hm' & _ & Hall')].
      * assert (q ∈ numerics (days c) (λ d, Some (min d))) as Hin'
          by (apply elem_of_numerics; exists d; by rewrite Hq).
        rewrite Hn in Hin'. by apply elem_of_nil in Hin'.
      * trans m'.
        -- apply Hall, elem_of_numerics. eauto.
        -- apply Hall', elem_of_numerics. exists d. by rewrite Hq.
Qed.

Lemma tempMax_spec cells :
  match tempMax cells with
  | None => ∀ c d, c ∈ cells → d ∈ days c → max d = NaN
  | Some x => ∃ m, x = Num m ∧ global_max cells m
  end.
Proof.
  unfold tempMax.
  destruct (d3_max_spec (λ c, d3_max (days c) (λ d, Some (max d))) cells)
    as [[-> Hnil]|(m & -> & Hin & Hall)].
  - intros c d Hc Hd. destruct (max d) as [|q] eqn:Hq; [done|exfalso].
    destruct (d3_max_spec (λ d, Some (max d)) (days c)) as [[_ Hn]|(m & Hm & _ & _)].
    + assert (q ∈ numerics (days c) (λ d, Some (max d))) as Hin
        by (apply elem_of_numerics; exists d; by rewrite Hq).
      rewrite Hn in Hin. by apply elem_of_nil in Hin.
    + assert (m ∈ numerics cells (λ c, d3_max (days c) (λ d, Some (max d)))) as Hin
        by (apply elem_of_numerics; eauto).
      rewrite Hnil in Hin. by apply elem_of_nil in Hin.
  - exists m. split; [done|]. split.
    + apply elem_of_numerics in Hin as (c & Hc & Hm).
      destruct (d3_max_spec (λ d, Some (max d)) (days c)) as [[Hn _]|(m' & Hm' & Hin' & _)];
        [congruence|].
      assert (m' = m) as -> by congruence.
      apply elem_of_numerics in Hin' as (d & Hd & Hq). exists c, d. naive_solver.
    + intros c d q Hc Hd Hq.
      destruct (d3_max_spec (λ d, Some (max d)) (days c)) as [[_ Hn]|(m' & Hm' & _ & Hall')].
      * assert (q ∈ numerics (days c) (λ d, Some (max d))) as Hin'
          by (apply elem_of_numerics; exists d; by rewrite Hq).
        rewrite Hn in Hin'. by apply elem_of_nil in Hin'.
      * trans m'.
        -- apply Hall', elem_of_numerics. exists d. by rewrite Hq.
        -- apply Hall, elem_of_numerics. eauto.
Qed.

Lemma drawMatrix_sparklines cells years p :
  sparklines (drawMatrix cells years p)
  = drawSparklines cells (matrix_xScale years) matrix_yScale.
Proof. reflexivity. Qed.

Lemma filterLastYears_valid_dates data n d :
  d ∈ filterLastYears data n → date d ≠ InvalidDate.
Proof.
  intros [Hgt _]%list_elem_of_filter Hinv.
  unfold year_of in Hgt. rewrite Hinv in Hgt. cbn in Hgt.
  unfold gt, lt in Hgt. by destruct (sub _ _).
Qed.

Lemma aggregate_cell_date data c :
  c ∈ aggregateByYearMonth data →
  ∃ d, d ∈ data ∧ year c = year_of d ∧ month c = month_of d.
Proof.
  intros Hc. destruct (proj1 (aggregate_key_populated data (year c) (month c)))
    as (d & Hd & Hy & Hm); [by exists c|]. eauto.
Qed.

Lemma snd_imap {A B C : Type} (f : nat → A → B) (g : A → C) (l : list A) :
  snd <$> imap (λ i a, (f i a, g a)) l = g <$> l.
Proof.
  revert f. induction l as [|a l IH]; intros f; [done|].
  cbn [imap fmap list_fmap]. f_equal. apply (IH (f ∘ S)).
Qed.

(** The y coordinates of a drawn line are the values of the linear scale
    over the global domain, on the y range of the cell. *)
Lemma line_ys cells xScale yScale cell (field : DailyRecord → number) :
  snd <$> line cells xScale yScale cell field
  = (λ d, ToNumber (scaleLinear (tempMin cells, tempMax cells)
                      (sub (add (cy yScale cell) (cellH yScale)) pad,
                       add (cy yScale cell) pad) (Some (field d)))) <$> days cell.
Proof. unfold line. apply snd_imap. Qed.

(** A linear scale places a value at a fraction of its range that depends
    on the domain alone. *)
Lemma scaleLinear_fraction (domain : option number * option number) (T : Qc) :
  ∃ (u : number) (flipped : bool), ∀ r0 r1 : number,
    scaleLinear domain (r0, r1) (Some (Num T))
    = Some (if flipped then interpolateNumber r1 r0 u
            else interpolateNumber r0 r1 u).
Proof.
  unfold scaleLinear, bimap. cbn [fst snd isNaN].
  destruct (lt (ToNumber domain.2) (ToNumber domain.1)).
  - by exists (normalize (ToNumber domain.2) (ToNumber domain.1) (Num T)), true.
  - by exists (normalize (ToNumber domain.1) (ToNumber domain.2) (Num T)), false.
Qed.

(** Claim C7 fails as stated: two days, one in January and one in
    February 2020, give the cells of months 0 and 1 and the global domain
    [12, 33]; in binary64 the temperature 20 is drawn at the offset
    7974290093019930 * 2^-48 from the top of the January cell and at
    7974290093019932 * 2^-48 from the top of the February cell. *)
Lemma sparkline_offsets_differ :
  let data := [mkDaily (LocalDate 2020 Jan 1) (ofZ 33) (ofZ 12);
               mkDaily (LocalDate 2020 Feb 1) (ofZ 20) (ofZ 15)] in
  let cells := aggregateByYearMonth (filterLastYears data (ofZ YEAR_COUNT)) in
  month <$> cells = [ofZ 0; ofZ 1]
  ∧ tempMin cells = Some (ofZ 12)
  ∧ tempMax cells = Some (ofZ 33)
  ∧ Binary64.offset 0 12 33 20 = Some (S754_finite false 7974290093019930 (-48))
  ∧ Binary64.offset 1 12 33 20 = Some (S754_finite false 7974290093019932 (-48))
  ∧ Binary64.offset 0 12 33 20 ≠ Binary64.offset 1 12 33 20.
Proof.
  split_and!; [by_compute|by_compute|by_compute|by vm_compute|by vm_compute|].
  by vm_compute.
Qed.

(** Claim C7, amended.  Within one render every sparkline is drawn with
    one y scale domain, from the least [min] of all days of all cells to
    the greatest [max] of all days of all cells: the y coordinates of the
    two paths of a cell are the values of the linear scale over that
    domain on the cell's own y range, from [cy + cellH - pad] down to
    [cy + pad].  Consequently a temperature is drawn, in every cell, at
    one and the same fraction of the cell's own y range. *)
Theorem sparklines_share_y_scale (data : list DailyRecord) (n : number)
    (years : list number) (p : Page) :
  let cells := aggregateByYearMonth (filterLastYears data n) in
  let bottom cell := sub (add (cy matrix_yScale cell) (cellH matrix_yScale)) pad in
  let top cell := add (cy matrix_yScale cell) pad in
  let y cell T :=
    scaleLinear (tempMin cells, tempMax cells) (bottom cell, top cell) (Some T) in
  (∀ i cell, cells !! i = Some cell →
     ∃ lineMax lineMin,
       sparklines (drawMatrix cells years p) !! i = Some (lineMax, lineMin)
       ∧ snd <$> lineMax = (λ d, ToNumber (y cell (max d))) <$> days cell
       ∧ snd <$> lineMin = (λ d, ToNumber (y cell (min d))) <$> days cell)
  ∧ (∀ m, tempMin cells = Some (Num m) → global_min cells m)
  ∧ (∀ m, global_min cells m → tempMin cells = Some (Num m))
  ∧ (∀ m, tempMax cells = Some (Num m) → global_max cells m)
  ∧ (∀ m, global_max cells m → tempMax cells = Some (Num m))
  ∧ ∀ T : Qc, ∃ (u : number) (flipped : bool), ∀ cell, cell ∈ cells →
      y cell (Num T)
      = Some (if flipped then interpolateNumber (top cell) (bottom cell) u
              else interpolateNumber (bottom cell) (top cell) u).
Proof.
  cbn zeta. set (cells := aggregateByYearMonth (filterLastYears data n)).
  pose proof (tempMin_spec cells) as Hmin. pose proof (tempMax_spec cells) as Hmax.
  split_and!.
  - intros i cell Hi. rewrite drawMatrix_sparklines. unfold drawSparklines.
    rewrite list_lookup_fmap, Hi. cbn [fmap option_fmap option_map].
    eexists _, _. split_and!; [reflexivity|apply line_ys..].
  - intros m Hm. rewrite Hm in Hmin. destruct Hmin as (m' & [= <-] & ?). done.
  - intros m [(c & d & Hc & Hd & Hq) Hle]. destruct (tempMin cells) as [x|].
    + destruct Hmin as (m' & -> & [(c' & d' & Hc' & Hd' & Hq') Hle']).
      do 2 f_equal. apply (anti_symm Qcle); eauto.
    + rewrite (Hmin c d Hc Hd) in Hq. done.
  - intros m Hm. rewrite Hm in Hmax. destruct Hmax as (m' & [= <-] & ?). done.
  - intros m [(c & d & Hc & Hd & Hq) Hle]. destruct (tempMax cells) as [x|].
    + destruct Hmax as (m' & -> & [(c' & d' & Hc' & Hd' & Hq') Hle']).
      do 2 f_equal. apply (anti_symm Qcle); eauto.
    + rewrite (Hmax c d Hc Hd) in Hq. done.
  - intros T.
    destruct (scaleLinear_fraction (tempMin cells, tempMax cells) T)
      as (u & flipped & Hu).
    exists u, flipped. intros cell _. apply Hu.
Qed.

Lemma sparklines_share_y_scale_witness :
  let data := [mkDaily (LocalDate 2019 Jan 1) (ofZ 18) (ofZ 12);
               mkDaily (LocalDate 2020 Jul 1) (ofZ 33) (ofZ 27)] in
  let cells := aggregateByYearMonth (filterLastYears data (ofZ 10)) in
  let years := [ofZ 2019; ofZ 2020] in
  let p := blank_page "" (mkTooltip "none" (ofZ 0) (ofZ 0) "") in
  let c2 := mkCell (ofZ 2020) (ofZ 6) (Some (ofZ 33)) (Some (ofZ 27))
              [mkDaily (LocalDate 2020 Jul 1) (ofZ 33) (ofZ 27)] in
  cells !! 1%nat = Some c2
  ∧ tempMin cells = Some (Num (Qc_of_Z 12))
  ∧ global_min cells (Qc_of_Z 12)
  ∧ ∃ lineMax lineMin,
      sparklines (drawMatrix cells years p) !! 1%nat = Some (lineMax, lineMin)
      ∧ snd <$> lineMax
        = (λ d, ToNumber
                  (scaleLinear (tempMin cells, tempMax cells)
                     (sub (add (cy matrix_yScale c2) (cellH matrix_yScale)) pad,
                      add (cy matrix_yScale c2) pad) (Some (max d)))) <$> days c2.
Proof.
  cbn zeta.
  set (data := [mkDaily (LocalDate 2019 Jan 1) (ofZ 18) (ofZ 12);
               mkDaily (LocalDate 2020 Jul 1) (ofZ 33) (ofZ 27)]).
  set (cells := aggregateByYearMonth (filterLastYears data (ofZ 10))).
  set (c2 := mkCell (ofZ 2020) (ofZ 6) (Some (ofZ 33)) (Some (ofZ 27))
              [mkDaily (LocalDate 2020 Jul 1) (ofZ 33) (ofZ 27)]).
  assert (cells !! 1%nat = Some c2) as H2 by by_compute.
  assert (tempMin cells = Some (Num (Qc_of_Z 12))) as Hmin by by_compute.
  pose proof (sparklines_share_y_scale data (ofZ 10) [ofZ 2019; ofZ 2020]
                (blank_page "" (mkTooltip "none" (ofZ 0) (ofZ 0) "")))
    as (Hpaths & Hg & _).
  cbn zeta in Hpaths.
  split_and!; [done|done|exact (Hg _ Hmin)|].
  destruct (Hpaths 1%nat c2 H2) as (lineMax & lineMin & Hl & Hy & _).
  exists lineMax, lineMin. split; [exact Hl|exact Hy].
Defined.

(** ** Band scales give pixel positions *)

Lemma Math_max_ge_1 (q : Qc) :
  ∃ c, Math_max (ofZ 1) (Num q) = Num c ∧ c ≠ 0%Qc.
Proof.
  unfold Math_max, ofZ. rewrite Z2Qc_inj_1. case_bool_decide as Hlt.
  - exists q. split; [done|]. intros ->. by vm_compute in Hlt.
  - exists 1%Qc. done.
Qed.

Lemma Math_min_Num (a b : Qc) : ∃ c, Math_min (Num a) (Num b) = Num c.
Proof. unfold Math_min. case_bool_decide; eauto. Qed.

Lemma scaleBand_numeric (domain : list number) (a b p : Qc) (d : number) :
  d ∈ domain →
  ∃ x w, band (scaleBand domain (Num a) (Num b) (Num p)) d = Some (Num x)
         ∧ bandwidth (scaleBand domain (Num a) (Num b) (Num p)) = Num w.
Proof.
  intros Hd. unfold scaleBand, band. cbn [band_domain band_values bandwidth].
  destruct (Math_min_Num (Qc_of_Z 1) p) as [pi Hpi].
  pose proof Math_max_ge_1 as Hmax. unfold ofZ, ofQ in *. rewrite Hpi.
  set (n := length (distinct domain)).
  set (start := if lt (Num b) (Num a) then Num b else Num a).
  set (stop := if lt (Num b) (Num a) then Num a else Num b).
  assert (∃ s0 s1, start = Num s0 ∧ stop = Num s1) as (s0 & s1 & -> & ->)
    by (unfold start, stop; destruct (lt (Num b) (Num a)); eauto).
  cbn [sub add mul lift2].
  destruct (Hmax (Qc_of_Z (Z.of_nat n) - pi + p * Qc_of_Z 2)%Qc)
    as (c & Hc & Hc0).
  rewrite Hc. unfold div. rewrite decide_False by done.
  cbn [sub add mul lift2].
  set (step := ((s1 - s0) / c)%Qc).
  set (st := (s0 + (s1 - s0 - step * (Qc_of_Z (Z.of_nat n) - pi)) * Q2Qc (1 # 2))%Qc).
  set (values := (λ i : nat, Num (st + step * Qc_of_Z (Z.of_nat i))) <$> seq 0 n).
  assert (Forall (λ v, ∃ x, v = Num x) values) as Hvals
    by (apply Forall_fmap, Forall_forall; intros i _; cbn; eauto).
  assert (length values = n) as Hlen by (unfold values; by rewrite length_fmap, length_seq).
  destruct (list_find_elem_of (λ k, k = d) (distinct domain) d)
    as [[i k] Hfind]; [by apply elem_of_distinct|done|].
  rewrite Hfind. cbn.
  apply list_find_Some in Hfind as (Hi%lookup_lt_Some & _).
  fold n in Hi.
  assert (∃ x, (if lt (Num b) (Num a) then reverse values else values) !! i
               = Some (Num x)) as [x Hx].
  { destruct (lt (Num b) (Num a)).
    - destruct (lookup_lt_is_Some_2 (reverse values) i) as [v Hv];
        [by rewrite length_reverse, Hlen|].
      assert (v ∈ values) as Hin
        by (apply elem_of_reverse; by eapply list_elem_of_lookup_2).
      rewrite Forall_forall in Hvals. destruct (Hvals v Hin) as [x ->]. eauto.
    - destruct (lookup_lt_is_Some_2 values i) as [v Hv]; [by rewrite Hlen|].
      rewrite Forall_forall in Hvals.
      destruct (Hvals v) as [x ->]; [by eapply list_elem_of_lookup_2|]. eauto. }
  exists x, (step * (Qc_of_Z 1 - pi))%Qc. split; [exact Hx|done].
Qed.

(** ** A month with a single day (claim C9) *)

Lemma d3_mean_singleton {A : Type} (valueof : A → number) (a : A) :
  d3_mean [a] valueof = if isNaN (valueof a) then None else Some (valueof a).
Proof.
  rewrite d3_mean_spec. unfold mean_of_numeric. cbn [fmap list_fmap omap list_omap].
  destruct (valueof a) as [|q]; cbn [numeric isNaN]; [done|].
  unfold mean_of. cbn [length Qc_sum foldr]. do 2 f_equal.
  change (Z.of_nat 1) with 1. rewrite Z2Qc_inj_1, Qcplus_0_r.
  apply (right_id 1%Qc Qcdiv).
Qed.

(** With the domain [[1, 1]] the x scale sends every day index to the
    middle of the cell. *)
Lemma sparkX_single_day (xScale : BandScale) (c : Cell) (x w i : Qc) :
  length (days c) = 1%nat →
  cx xScale c = Num x → cellW xScale = Num w →
  sparkX xScale c (Some (Num i)) = Some (Num (x + w / Qc_of_Z 2))%Qc.
Proof.
  intros Hlen Hx Hw. unfold sparkX, scaleLinear. cbn [isNaN fst snd ToNumber].
  rewrite Hlen, Hx, Hw. f_equal. unfold bimap.
  replace (lt (ofZ (Z.of_nat 1)) (ofZ 1)) with false by (by vm_compute).
  replace (normalize (ofZ 1) (ofZ (Z.of_nat 1)) (Num i)) with (ofQ (1 # 2))
    by (unfold normalize;
        replace (sub (ofZ (Z.of_nat 1)) (ofZ 1)) with (ofZ 0) by (symmetry; by_compute);
        by replace (truthy (ofZ 0)) with false by (by vm_compute)).
  unfold interpolateNumber, pad, ofZ, ofQ. cbn [add sub mul lift2]. f_equal.
  qc_simpl. unfold inject_Z. cbn [Qinv Qnum Qden]. field.
Qed.

(** Claim C9 fails as stated: for a single day whose [max] is [NaN] the
    Cell's [avgMax] is undefined, not that day's [max], and hovering the
    cell throws. *)
Lemma single_day_NaN_undefined :
  let d := mkDaily (LocalDate 2020 Jan 1) NaN (ofZ 14) in
  let c := mkCell (ofZ 2020) (ofZ 0) None (Some (ofZ 14)) [d] in
  let tip := mkTooltip "none" (ofZ 0) (ofZ 0) "" in
  aggregateByYearMonth (filterLastYears [d] (ofZ YEAR_COUNT)) = [c]
  ∧ avgMax c ≠ Some (max d)
  ∧ on_mouseover 0 (ofZ 100) (ofZ 100)
      (drawMatrix [c] [ofZ 2020] (blank_page "" tip)) = None.
Proof. split_and!; [by_compute|done|by vm_compute]. Qed.

(** Claim C9, amended.  For every (year, month) group of exactly one day
    the Cell's [avgMax] is that day's [max], and its [avgMin] that day's
    [min], when the value is a number (it is undefined when the value is
    [NaN]); and with the cell's year on the x axis, the day-to-x mapping
    with the degenerate domain [1, 1] yields a defined pixel position, the
    middle of the cell, so that each of the two sparklines of the cell is
    a single point. *)
Theorem single_day_cell (data : list DailyRecord) (n : number)
    (years : list number) (c : Cell) (d : DailyRecord) :
  let cells := aggregateByYearMonth (filterLastYears data n) in
  let xScale := matrix_xScale years in
  c ∈ cells → days c = [d] → year c ∈ years →
  avgMax c = (if isNaN (max d) then None else Some (max d))
  ∧ avgMin c = (if isNaN (min d) then None else Some (min d))
  ∧ ∃ x w : Qc,
      cx xScale c = Num x ∧ cellW xScale = Num w
      ∧ sparkX xScale c (Some (ofZ 1)) = Some (Num (x + w / Qc_of_Z 2))%Qc
      ∧ line cells xScale matrix_yScale c max
        = [(Num (x + w / Qc_of_Z 2)%Qc,
            ToNumber (sparkY cells matrix_yScale c (Some (max d))))]
      ∧ line cells xScale matrix_yScale c min
        = [(Num (x + w / Qc_of_Z 2)%Qc,
            ToNumber (sparkY cells matrix_yScale c (Some (min d))))].
Proof.
  cbn zeta. intros (_ & _ & Hmax & Hmin)%elem_of_aggregate Hdays Hyear.
  rewrite Hdays in Hmax, Hmin. rewrite d3_mean_singleton in Hmax, Hmin.
  split_and!; [done|done|].
  destruct (scaleBand_numeric years (Qc_of_Z 0)
              (Qc_of_Z (Z.of_nat (length years) * cellWidth)) (Q2Qc (5 # 100))
              (year c) Hyear) as (x & w & Hx & Hw).
  assert (cx (matrix_xScale years) c = Num x) as Hcx
    by (unfold cx, matrix_xScale, ofZ, ofQ; by rewrite Hx).
  assert (cellW (matrix_xScale years) = Num w) as Hcw by exact Hw.
  assert (length (days c) = 1%nat) as Hlen by (by rewrite Hdays).
  exists x, w. split_and!; [done|done|by apply sparkX_single_day|..].
  - unfold line. rewrite Hdays. cbn [imap].
    unfold ofZ at 1 2. cbn [add lift2 ToNumber].
    by rewrite (sparkX_single_day _ c x w).
  - unfold line. rewrite Hdays. cbn [imap].
    unfold ofZ at 1 2. cbn [add lift2 ToNumber].
    by rewrite (sparkX_single_day _ c x w).
Qed.

Lemma single_day_cell_witness :
  let d := mkDaily (LocalDate 2020 Jan 1) (ofZ 30) (ofZ 14) in
  let c := mkCell (ofZ 2020) (ofZ 0) (Some (ofZ 30)) (Some (ofZ 14)) [d] in
  c ∈ aggregateByYearMonth (filterLastYears [d] (ofZ YEAR_COUNT))
  ∧ days c = [d] ∧ year c ∈ [ofZ 2020]
  ∧ avgMax c = (if isNaN (max d) then None else Some (max d)).
Proof.
  cbn zeta.
  set (d := mkDaily (LocalDate 2020 Jan 1) (ofZ 30) (ofZ 14)).
  set (c := mkCell (ofZ 2020) (ofZ 0) (Some (ofZ 30)) (Some (ofZ 14)) [d]).
  assert (c ∈ aggregateByYearMonth (filterLastYears [d] (ofZ YEAR_COUNT))) as Hc
    by by_compute.
  assert (days c = [d]) as Hd by reflexivity.
  assert (year c ∈ [ofZ 2020]) as Hy by (apply list_elem_of_singleton; reflexivity).
  split_and!; [done|done|done|].
  exact (proj1 (single_day_cell [d] (ofZ YEAR_COUNT) [ofZ 2020] c d Hc Hd Hy)).
Defined.

(** The years the entry point puts on the x axis cover every cell. *)
Lemma entry_years_cover (data : list DailyRecord) (n : number) (c : Cell) :
  let filtered := filterLastYears data n in
  c ∈ aggregateByYearMonth filtered →
  year c ∈ merge_sort text_le (distinct (year_of <$> filtered)).
Proof.
  cbn zeta. intros (d & Hd & Hy & _)%aggregate_cell_date.
  rewrite merge_sort_Permutation, elem_of_distinct, Hy.
  by apply list_elem_of_fmap_2.
Qed.

(** ** Malformed numbers and the averages (claim C4) *)

Lemma mean_of_numeric_None (xs : list number) :
  mean_of_numeric xs = None ↔ Forall (λ x, x = NaN) xs.
Proof.
  unfold mean_of_numeric. induction xs as [|x xs IH].
  - split; [constructor|done].
  - cbn [omap list_omap]. destruct x as [|q]; cbn [numeric].
    + rewrite IH. split; [by constructor|by intros [_ ?]%Forall_cons_1].
    + split; [done|]. by intros [? _]%Forall_cons_1.
Qed.

Lemma StringToNumber_malformed text :
  malformed text → StringToNumber text = Some NaN.
Proof. unfold malformed, StringToNumber. by intros ->. Qed.

Lemma omap_numeric_without_NaN (xs : list number) :
  omap (λ x, numeric (Some x)) (filter (λ x, x ≠ NaN) xs)
  = omap (λ x, numeric (Some x)) xs.
Proof.
  induction xs as [|x xs IH]; [done|]. destruct x as [|q].
  - rewrite filter_cons_False by (intros H; by apply H). done.
  - rewrite filter_cons_True by done.
    change (q :: omap (λ x, numeric (Some x)) (filter (λ x, x ≠ NaN) xs)
            = q :: omap (λ x, numeric (Some x)) xs).
    by rewrite IH.
Qed.

Lemma filter_fmap_without_NaN {A : Type} (valueof : A → number) (values : list A) :
  valueof <$> filter (λ a, valueof a ≠ NaN) values
  = filter (λ x, x ≠ NaN) (valueof <$> values).
Proof.
  induction values as [|a values IH]; [done|].
  cbn [fmap list_fmap]. destruct (decide (valueof a ≠ NaN)).
  - rewrite !filter_cons_True by done. cbn [fmap list_fmap]. by rewrite IH.
  - by rewrite !filter_cons_False by done.
Qed.

(** [d3.mean] is the mean of the values that are left when the [NaN]
    entries are removed. *)
Lemma d3_mean_without_NaN {A : Type} (valueof : A → number) (values : list A) :
  d3_mean (filter (λ a, valueof a ≠ NaN) values) valueof = d3_mean values valueof.
Proof.
  rewrite !d3_mean_spec, filter_fmap_without_NaN. unfold mean_of_numeric.
  by rewrite omap_numeric_without_NaN.
Qed.

Lemma aggregate_covers data d :
  d ∈ data → ∃ c, c ∈ aggregateByYearMonth data ∧ d ∈ days c.
Proof.
  intros Hd.
  destruct (proj2 (aggregate_key_populated data (year_of d) (month_of d)))
    as (c & Hc & Hy & Hm); [by exists d|].
  exists c. split; [done|].
  apply elem_of_aggregate in Hc as (-> & _).
  apply list_elem_of_filter. by rewrite Hy, Hm.
Qed.

(** Claim C4 fails as stated: the first row has the malformed text "abc"
    and is parsed to a [NaN] max; it lies in the cell of January 2020,
    whose [avgMax] is 30, the mean of the other row, and not [NaN]. *)
Lemma malformed_max_not_propagated :
  let rows := [Raw.mkRow "2020-01-15" "abc" "14";
               Raw.mkRow "2020-01-16" "30" "16"] in
  let plus := λ text, default NaN (StringToNumber text) in
  let data := parseRow isoDate plus <$> rows in
  malformed "abc"
  ∧ StringToNumber <$> ["abc"; "14"; "30"; "16"]
    = [Some NaN; Some (ofZ 14); Some (ofZ 30); Some (ofZ 16)]
  ∧ data = [mkDaily (LocalDate 2020 Jan 15) NaN (ofZ 14);
            mkDaily (LocalDate 2020 Jan 16) (ofZ 30) (ofZ 16)]
  ∧ aggregateByYearMonth (filterLastYears data (ofZ YEAR_COUNT))
    = [mkCell (ofZ 2020) (ofZ 0) (Some (ofZ 30)) (Some (ofZ 15)) data].
Proof. split_and!; [by vm_compute|by_compute..]. Qed.

(** Claim C4, amended.  A row whose numeric text is malformed (not a
    numeric literal) is parsed to a [NaN] temperature, with no
    diagnostic.  The [NaN] does not reach the averages: every retained
    row lies in a Cell, and [avgMax] and [avgMin] of a Cell are the
    averages over the rows of the Cell without those that have [NaN]
    there, that is the means of the values of the Cell that are numbers;
    an average is undefined exactly when every row of the Cell has [NaN]
    there. *)
Theorem malformed_number_skipped (newDate : string → Date)
    (plus : string → number) (rows : list Raw.Row) (n : number) :
  let parse := parseRow newDate plus in
  let cells := aggregateByYearMonth (filterLastYears (parse <$> rows) n) in
  converts plus rows →
  (∀ row, row ∈ rows → malformed (Raw.max_temperature row) → max (parse row) = NaN)
  ∧ (∀ row, row ∈ rows → malformed (Raw.min_temperature row) → min (parse row) = NaN)
  ∧ (∀ d, d ∈ filterLastYears (parse <$> rows) n → ∃ c, c ∈ cells ∧ d ∈ days c)
  ∧ ∀ c, c ∈ cells →
      avgMax c = d3_mean (filter (λ d, max d ≠ NaN) (days c)) max
      ∧ avgMin c = d3_mean (filter (λ d, min d ≠ NaN) (days c)) min
      ∧ avgMax c = mean_of_numeric (max <$> days c)
      ∧ avgMin c = mean_of_numeric (min <$> days c)
      ∧ (avgMax c = None ↔ Forall (λ d, max d = NaN) (days c))
      ∧ (avgMin c = None ↔ Forall (λ d, min d = NaN) (days c)).
Proof.
  cbn zeta. intros Hplus. split_and!.
  - intros row Hrow Hbad. destruct (Hplus row Hrow) as [Hmax _].
    rewrite (StringToNumber_malformed _ Hbad) in Hmax. cbn [parseRow max]. congruence.
  - intros row Hrow Hbad. destruct (Hplus row Hrow) as [_ Hmin].
    rewrite (StringToNumber_malformed _ Hbad) in Hmin. cbn [parseRow min]. congruence.
  - intros d. apply aggregate_covers.
  - intros c (_ & _ & Hmax & Hmin)%elem_of_aggregate.
    rewrite !d3_mean_without_NaN. split_and!; [done|done|..].
    + by rewrite Hmax, d3_mean_spec.
    + by rewrite Hmin, d3_mean_spec.
    + by rewrite Hmax, d3_mean_spec, mean_of_numeric_None, Forall_fmap.
    + by rewrite Hmin, d3_mean_spec, mean_of_numeric_None, Forall_fmap.
Qed.

Lemma malformed_number_skipped_witness :
  let rows := [Raw.mkRow "2020-01-15" "abc" "14";
               Raw.mkRow "2020-01-16" "30" "16"] in
  let plus := λ text, default NaN (StringToNumber text) in
  let data := parseRow isoDate plus <$> rows in
  let c := mkCell (ofZ 2020) (ofZ 0) (Some (ofZ 30)) (Some (ofZ 15)) data in
  converts plus rows
  ∧ Raw.mkRow "2020-01-15" "abc" "14" ∈ rows
  ∧ malformed (Raw.max_temperature (Raw.mkRow "2020-01-15" "abc" "14"))
  ∧ max (parseRow isoDate plus (Raw.mkRow "2020-01-15" "abc" "14")) = NaN
  ∧ c ∈ aggregateByYearMonth (filterLastYears data (ofZ YEAR_COUNT))
  ∧ avgMax c = d3_mean (filter (λ d, max d ≠ NaN) (days c)) max.
Proof.
  cbn zeta.
  set (rows := [Raw.mkRow "2020-01-15" "abc" "14"; Raw.mkRow "2020-01-16" "30" "16"]).
  set (plus := λ text, default NaN (StringToNumber text)).
  set (data := parseRow isoDate plus <$> rows).
  set (c := mkCell (ofZ 2020) (ofZ 0) (Some (ofZ 30)) (Some (ofZ 15)) data).
  assert (converts plus rows) as Hplus.
  { intros row Hrow.
    apply elem_of_cons in Hrow as [->|Hrow];
      [|apply list_elem_of_singleton in Hrow as ->]; split; by_compute. }
  assert (Raw.mkRow "2020-01-15" "abc" "14" ∈ rows) as Hrow by (by left).
  assert (malformed (Raw.max_temperature (Raw.mkRow "2020-01-15" "abc" "14")))
    as Hbad by (by vm_compute).
  assert (c ∈ aggregateByYearMonth (filterLastYears data (ofZ YEAR_COUNT))) as Hc
    by by_compute.
  pose proof (malformed_number_skipped isoDate plus rows (ofZ YEAR_COUNT) Hplus)
    as (Hparse & _ & _ & Hcells).
  split_and!; [done|done|done|exact (Hparse _ Hrow Hbad)|done|].
  exact (proj1 (Hcells c Hc)).
Defined.

(** ** Further properties of the year filter *)

Lemma filter_window_numeric data n d :
  d ∈ filterLastYears data n →
  ∃ (m : Z) (q : Qc) (y : Z),
    greatest_year data m ∧ n = Num q ∧ year_of d = ofZ y
    ∧ (Qc_of_Z m - q < Qc_of_Z y)%Qc ∧ y ≤ m.
Proof.
  intros Hd. pose proof Hd as [Hgt Hin]%list_elem_of_filter.
  destruct (greatest_year_exists data) as [m Hm].
  { exists d. split; [done|]. by eapply filterLastYears_valid_dates. }
  rewrite (d3_max_greatest_year _ _ Hm) in Hgt. cbn [ToNumber] in Hgt.
  destruct (year_of_cases d) as [Hy|[y Hy]]; rewrite Hy in Hgt;
    [unfold gt, lt in Hgt; by destruct (sub _ _)|].
  destruct n as [|q]; [done|].
  exists m, q, y. split_and!; [done|done|done| |].
  - by apply bool_decide_unpack in Hgt.
  - destruct Hm as [_ Hle]. eauto.
Qed.

(** Rows whose date is invalid are never kept. *)
Theorem filterLastYears_drops_invalid_dates (data : list DailyRecord) (n : number) :
  Forall (λ d, date d ≠ InvalidDate) (filterLastYears data n).
Proof.
  apply Forall_forall. intros d Hd. by eapply filterLastYears_valid_dates.
Qed.

(** A window that is not a positive number keeps nothing. *)
Theorem filterLastYears_empty_window (data : list DailyRecord) (n : number) :
  n = NaN ∨ le n (ofZ 0) = true → filterLastYears data n = [].
Proof.
  intros Hn. destruct (filterLastYears data n) as [|d l] eqn:Hf; [done|exfalso].
  destruct (filter_window_numeric data n d) as (m & q & y & _ & -> & _ & Hlt & Hle);
    [rewrite Hf; by left|].
  destruct Hn as [?|Hq]; [done|]. apply bool_decide_eq_true in Hq.
  apply Z2Qc_inj_le in Hle. rewrite Z2Qc_inj_0 in Hq. qc_simpl. lra.
Qed.

Lemma filterLastYears_empty_window_witness :
  le (ofZ 0) (ofZ 0) = true
  ∧ filterLastYears [mkDaily (LocalDate 2020 Jan 1) (ofZ 20) (ofZ 14)] (ofZ 0) = [].
Proof.
  assert (le (ofZ 0) (ofZ 0) = true) as H by (by vm_compute).
  split; [exact H|].
  exact (filterLastYears_empty_window _ (ofZ 0) (or_intror H)).
Defined.

(** Filtering what the filter returned changes nothing. *)
Theorem filterLastYears_idempotent (data : list DailyRecord) (n : number) :
  filterLastYears (filterLastYears data n) n = filterLastYears data n.
Proof.
  destruct (filterLastYears data n) as [|d0 l] eqn:Hf; [done|]. rewrite <-Hf.
  destruct (filter_window_numeric data n d0) as (m & q & y0 & Hm & -> & Hy0 & Hlt0 & Hle0);
    [rewrite Hf; by left|].
  assert (0 < q)%Qc as Hq by (apply Z2Qc_inj_le in Hle0; qc_simpl; lra).
  assert (greatest_year (filterLastYears data (Num q)) m) as Hm'.
  { destruct Hm as [(d & Hd & Hy) Hle]. split.
    - exists d. split; [|done]. unfold filterLastYears.
      rewrite (d3_max_greatest_year data m) by (split; eauto).
      cbn [ToNumber]. apply list_elem_of_filter. split; [|done].
      rewrite Hy. cbn. apply bool_decide_pack. qc_simpl. lra.
    - intros d' y' [_ Hd']%list_elem_of_filter. eauto. }
  unfold filterLastYears at 1.
  rewrite (d3_max_greatest_year _ _ Hm').
  unfold filterLastYears. rewrite (d3_max_greatest_year _ _ Hm).
  rewrite list_filter_filter. apply list_filter_iff. naive_solver.
Qed.

(** A wider window keeps at least the rows of a narrower one, in the
    same order. *)
Theorem filterLastYears_monotone (data : list DailyRecord) (n n' : Qc) :
  (n ≤ n')%Qc →
  filterLastYears data (Num n) `sublist_of` filterLastYears data (Num n').
Proof.
  intros Hn. unfold filterLastYears.
  set (T := ToNumber (d3_max data (λ d, Some (year_of d)))).
  rewrite <-(list_filter_filter_l
               (λ d, gt (year_of d) (sub T (Num n)))
               (λ d, gt (year_of d) (sub T (Num n')))).
  - apply sublist_filter.
  - intros d. unfold gt, lt. destruct T as [|t]; [done|]. cbn.
    destruct (year_of d) as [|y]; [done|].
    intros Hy%bool_decide_unpack. apply bool_decide_pack. qc_simpl. lra.
Qed.

Lemma filterLastYears_monotone_witness :
  (Qc_of_Z 1 ≤ Qc_of_Z 10)%Qc
  ∧ filterLastYears [mkDaily (LocalDate 2019 Jan 1) (ofZ 20) (ofZ 14);
                     mkDaily (LocalDate 2020 Jan 1) (ofZ 20) (ofZ 14)] (Num (Qc_of_Z 1))
    `sublist_of`
    filterLastYears [mkDaily (LocalDate 2019 Jan 1) (ofZ 20) (ofZ 14);
                     mkDaily (LocalDate 2020 Jan 1) (ofZ 20) (ofZ 14)] (Num (Qc_of_Z 10)).
Proof.
  assert (Qc_of_Z 1 ≤ Qc_of_Z 10)%Qc as H by (by vm_compute).
  split; [exact H|]. exact (filterLastYears_monotone _ _ _ H).
Defined.

Lemma length_NoDup_year_range (l : list number) (a b : Z) :
  NoDup l → (∀ x, x ∈ l → ∃ y, x = ofZ y ∧ a < y ≤ b) →
  (length l ≤ Z.to_nat (b - a))%nat.
Proof.
  intros Hnd Hr. rewrite <-(length_seqZ (a + 1) (b - a)).
  rewrite <-(length_fmap ofZ).
  apply submseteq_length, NoDup_submseteq; [done|].
  intros x (y & -> & Hy)%Hr. apply list_elem_of_fmap_2, elem_of_seqZ. lia.
Qed.

(** The matrix has at most [YEAR_COUNT] year columns. *)
Theorem at_most_YEAR_COUNT_columns (data : list DailyRecord) (label : string)
    (tip : Tooltip) :
  render data label tip
  = drawMatrix (aggregateByYearMonth (filterLastYears data (ofZ YEAR_COUNT)))
               (entry_years data) (blank_page label tip)
  ∧ NoDup (entry_years data)
  ∧ (length (entry_years data) ≤ Z.to_nat YEAR_COUNT)%nat
  ∧ band_domain (matrix_xScale (entry_years data)) = entry_years data.
Proof.
  split; [done|].
  assert (NoDup (entry_years data)) as Hnd.
  { unfold entry_years. rewrite merge_sort_Permutation. apply NoDup_distinct. }
  split_and!; [done| |by apply distinct_NoDup_id].
  - destruct (filterLastYears data (ofZ YEAR_COUNT)) as [|d0 l] eqn:Hf.
    { unfold entry_years. rewrite Hf. vm_compute. lia. }
    destruct (filter_window_numeric data (ofZ YEAR_COUNT) d0)
      as (m & q & y0 & Hm & [= <-] & _); [rewrite Hf; by left|].
    replace (Z.to_nat YEAR_COUNT) with (Z.to_nat (m - (m - YEAR_COUNT)))
      by (f_equal; lia).
    apply length_NoDup_year_range; [done|].
    intros x Hx. unfold entry_years in Hx.
    rewrite merge_sort_Permutation, elem_of_distinct, list_elem_of_fmap in Hx.
    destruct Hx as (d & -> & Hd).
    destruct (filter_window_numeric data (ofZ YEAR_COUNT) d Hd)
      as (m' & q & y & Hm' & [= <-] & Hy & Hlt & Hle).
    assert (m' = m) as ->.
    { apply (d3_max_greatest_year data) in Hm, Hm'.
      assert (ofZ m' = ofZ m) as Heq by congruence.
      unfold ofZ in Heq. apply Z2Qc_inj. congruence. }
    exists y. split; [done|]. split; [|done].
    rewrite <-Z2Qc_inj_sub in Hlt. by apply Z2Qc_inj_lt in Hlt.
Qed.

(** ** Further properties of the aggregator *)

Lemma group_push_concat {A : Type} key (value : A) groups :
  concat (group_push key value groups).*2 ≡ₚ value :: concat groups.*2.
Proof.
  induction groups as [|[k g] groups IH]; cbn; [done|].
  case_decide; cbn.
  - rewrite <-(assoc_L (++)). cbn. by rewrite <-Permutation_middle.
  - rewrite IH. by rewrite <-Permutation_middle.
Qed.

Lemma group_by_concat {A : Type} (keyof : A → number) (values : list A) :
  concat (group_by keyof values).*2 ≡ₚ values.
Proof.
  induction values as [|value values IH] using rev_ind; [done|].
  rewrite group_by_snoc, group_push_concat, IH.
  by rewrite <-Permutation_cons_append.
Qed.

Lemma concat_days_bind (year : number) (monthMap : list (number * list DailyRecord)) :
  concat (days <$> (monthMap ≫= λ monthEntry,
            [ {| year := year; month := monthEntry.1;
                 avgMax := d3_mean monthEntry.2 max;
                 avgMin := d3_mean monthEntry.2 min;
                 days := monthEntry.2 |} ]))
  = concat monthMap.*2.
Proof.
  induction monthMap as [|[m g] monthMap IH]; [done|].
  rewrite bind_cons. cbn [fmap list_fmap app concat days snd]. by rewrite IH.
Qed.

(** The days of the cells are the input rows, each exactly once. *)
Theorem aggregate_partitions (data : list DailyRecord) :
  concat (days <$> aggregateByYearMonth data) ≡ₚ data
  ∧ ∀ c, c ∈ aggregateByYearMonth data → days c `sublist_of` data.
Proof.
  split.
  - unfold aggregateByYearMonth, d3_group.
    set (key1 := λ d, getFullYear (date d)). set (key2 := λ d, getMonth (date d)).
    rewrite <-(group_by_concat key1 data) at 2.
    induction (group_by key1 data) as [|[y g] groups IH]; [done|].
    rewrite fmap_cons, bind_cons, fmap_app, concat_app, IH.
    cbn [fst snd fmap list_fmap concat].
    by rewrite concat_days_bind, group_by_concat.
  - intros c (-> & _)%elem_of_aggregate. apply sublist_filter.
Qed.








(** ** Further properties of the interactions *)

Lemma handle_mode p e :
  mode (handle p e) = if decide (e = Click) then toggled (mode p) else mode p.
Proof.
  destruct e as [|i pageX pageY|]; cbn [handle]; [done| |done].
  rewrite decide_False by done.
  unfold on_mouseover. destruct (rects p !! i) as [rect|]; [|done].
  by destruct (match mode p with ModeMax => _ | ModeMin => _ end).
Qed.

(** The mode depends only on the parity of the number of clicks. *)
Theorem mode_after_events (events : list Event) (p : Page) :
  mode (run events p) = if Nat.even (clicks events) then mode p else toggled (mode p).
Proof.
  induction events as [|e events IH] using rev_ind; [done|].
  rewrite run_snoc, handle_mode, IH. unfold clicks.
  rewrite filter_app, length_app, filter_cons, filter_nil.
  destruct (decide (e = Click)) as [->|He]; cbn [length].
  - rewrite Nat.add_1_r, Nat.even_succ, <-Nat.negb_even.
    destruct (Nat.even _); cbn; [done|by destruct (mode p)].
  - by rewrite Nat.add_0_r.
Qed.

Lemma mode_average_None data c m :
  c ∈ aggregateByYearMonth data →
  mode_average m c = None ↔ Forall (λ d, mode_field m d = NaN) (days c).
Proof.
  intros (_ & _ & Hmax & Hmin)%elem_of_aggregate.
  rewrite d3_mean_spec in Hmax, Hmin.
  destruct m; cbn [mode_average mode_field].
  - by rewrite Hmax, mean_of_numeric_None, Forall_fmap.
  - by rewrite Hmin, mean_of_numeric_None, Forall_fmap.
Qed.

Lemma run_rect_datum events cells years p0 i c :
  cells !! i = Some c →
  ∃ rect, rects (run events (drawMatrix cells years p0)) !! i = Some rect
          ∧ datum rect = c.
Proof.
  intros Hc.
  pose proof (run_datum events (drawMatrix cells years p0)) as Hd.
  rewrite drawMatrix_datum in Hd.
  rewrite <-Hd, list_lookup_fmap in Hc.
  destruct (rects _ !! i) as [rect|]; [|done]. exists rect. by simplify_eq/=.
Qed.

(** Hovering a cell throws exactly when every day of the cell has [NaN]
    in the field of the current mode (the average is then undefined and
    [toFixed] is called on it); otherwise the tooltip is shown. *)
Theorem mouseover_throws_iff (data : list DailyRecord) (years : list number)
    (p0 : Page) (events : list Event) (i : nat) (c : Cell) (pageX pageY : number) :
  let cells := aggregateByYearMonth data in
  let p := run events (drawMatrix cells years p0) in
  cells !! i = Some c →
  on_mouseover i pageX pageY p = None
  ↔ Forall (λ d, mode_field (mode p) d = NaN) (days c).
Proof.
  cbn zeta. intros Hc.
  destruct (run_rect_datum events _ years p0 i c Hc) as (rect & Hr & Hd).
  rewrite <-(mode_average_None data c) by (by eapply list_elem_of_lookup_2).
  unfold on_mouseover. rewrite Hr, Hd. unfold mode_average.
  destruct (mode _); by destruct (_ c).
Qed.

Lemma mouseover_throws_iff_witness :
  let data := [mkDaily (LocalDate 2020 Jan 1) NaN (ofZ 14)] in
  let c := mkCell (ofZ 2020) (ofZ 0) None (Some (ofZ 14)) data in
  let p := run [] (drawMatrix (aggregateByYearMonth data) [ofZ 2020]
                    (blank_page "" (mkTooltip "none" (ofZ 0) (ofZ 0) ""))) in
  aggregateByYearMonth data !! 0%nat = Some c
  ∧ (on_mouseover 0 (ofZ 10) (ofZ 10) p = None
     ↔ Forall (λ d, mode_field (mode p) d = NaN) (days c)).
Proof.
  cbn zeta.
  assert (aggregateByYearMonth [mkDaily (LocalDate 2020 Jan 1) NaN (ofZ 14)] !! 0%nat
          = Some (mkCell (ofZ 2020) (ofZ 0) None (Some (ofZ 14))
                    [mkDaily (LocalDate 2020 Jan 1) NaN (ofZ 14)])) as Hc by by_compute.
  split; [exact Hc|].
  exact (mouseover_throws_iff _ [ofZ 2020] _ [] 0 _ (ofZ 10) (ofZ 10) Hc).
Defined.

(** No event moves or resizes a rectangle, rebinds its cell, or redraws a
    sparkline; and without a click the mode, the fills and the label stay
    too: hovering changes the tooltip only. *)
Theorem events_keep_geometry (events : list Event) (p : Page) :
  (λ rect, (datum rect, rect_x rect, rect_y rect, rect_width rect, rect_height rect))
    <$> rects (run events p)
  = (λ rect, (datum rect, rect_x rect, rect_y rect, rect_width rect, rect_height rect))
    <$> rects p
  ∧ sparklines (run events p) = sparklines p
  ∧ (Click ∉ events →
     mode (run events p) = mode p ∧ rects (run events p) = rects p
     ∧ mode_label (run events p) = mode_label p).
Proof.
  induction events as [|e events IH] using rev_ind; [done|].
  rewrite run_snoc. destruct IH as (Hg & Hs & Hh).
  assert (e ≠ Click → handle (run events p) e
                      = mkPage (mode (run events p)) (rects (run events p))
                          (sparklines (run events p)) (mode_label (run events p))
                          (tooltip (handle (run events p) e))) as Hhover.
  { destruct e as [|i pageX pageY|]; [done| |done]. intros _. cbn [handle].
    unfold on_mouseover. destruct (rects _ !! i) as [rect|]; [|by destruct (run events p)].
    destruct (match mode _ with ModeMax => _ | ModeMin => _ end);
      [done|by destruct (run events p)]. }
  split_and!.
  - rewrite <-Hg. destruct (decide (e = Click)) as [->|He].
    + cbn [handle]. unfold on_click. cbn [rects]. rewrite <-list_fmap_compose.
      by apply list_fmap_ext.
    + by rewrite (Hhover He).
  - rewrite <-Hs. destruct (decide (e = Click)) as [->|He]; [done|].
    by rewrite (Hhover He).
  - intros Hno. rewrite not_elem_of_app, list_elem_of_singleton in Hno.
    destruct Hno as [Hno He]. destruct (Hh Hno) as (Hm & Hr & Hl).
    rewrite (Hhover (not_eq_sym He)). cbn. done.
Qed.

Lemma events_keep_geometry_witness :
  let p := drawMatrix
             (aggregateByYearMonth [mkDaily (LocalDate 2020 Jan 1) (ofZ 20) (ofZ 14)])
             [ofZ 2020] (blank_page "" (mkTooltip "none" (ofZ 0) (ofZ 0) "")) in
  (Click ∉ [MouseOver 0 (ofZ 5) (ofZ 5); MouseOut])
  ∧ rects (run [MouseOver 0 (ofZ 5) (ofZ 5); MouseOut] p) = rects p.
Proof.
  cbn zeta.
  assert (Click ∉ [MouseOver 0 (ofZ 5) (ofZ 5); MouseOut]) as Hno.
  { intros H. repeat (apply elem_of_cons in H as [H|H]; [discriminate H|]).
    by apply elem_of_nil in H. }
  split; [exact Hno|].
  exact (proj1 (proj2 (proj2 (proj2 (events_keep_geometry _ _)) Hno))).
Defined.
